(** * JenkDeHasher: the Jenkins one-at-a-time hasher, the name table and the
    token substitution of [JenkDeHasher.py], embedded in Rocq.

    Python strings are sequences of Unicode code points: a string is a
    [list Z] of code points ([ord] of each character).  The name table is a
    Python [dict] from strings to strings, modelled as a [gmap]. *)

From Stdlib Require Import ZArith Lia.
From stdpp Require Import gmap strings list.

(** ** Strings as code-point lists *)

Abbreviation str := (list Z).
Abbreviation table := (gmap (list Z) (list Z)).

(** A Rocq string literal read as the Python literal with the same ASCII
    characters. *)
Definition lit (s : string) : str :=
  (fun a => Z.of_N (Ascii.N_of_ascii a)) <$> String.list_ascii_of_string s.

(** ** Python built-ins used by the source *)

Module Py.

(** [str.isspace] on one character: the code points CPython's
    [_PyUnicode_IsWhitespace] accepts. *)
Definition isspace (c : Z) : bool :=
  ((9 <=? c) && (c <=? 13) || (28 <=? c) && (c <=? 32)
   || (c =? 133) || (c =? 160) || (c =? 5760)
   || (8192 <=? c) && (c <=? 8202)
   || (c =? 8232) || (c =? 8233) || (c =? 8239) || (c =? 8287)
   || (c =? 12288))%Z.

Fixpoint lstrip (s : str) : str :=
  match s with
  | c :: s' => if isspace c then lstrip s' else s
  | [] => []
  end.

Definition rstrip (s : str) : str := reverse (lstrip (reverse s)).

(** [s.strip()] with no argument. *)
Definition strip (s : str) : str := rstrip (lstrip s).

(** Digit [d] (0..15) of the [X] presentation type. *)
Definition hex_digit_upper (d : Z) : Z :=
  (if d <? 10 then 48 + d else 55 + d)%Z.

(** The digits of a non-negative integer in base 16, most significant
    first; [fuel] bounds the number of digits. *)
Fixpoint hex_upper_fuel (fuel : nat) (n : Z) : str :=
  match fuel with
  | O => []
  | S fuel' =>
      if (n <? 16)%Z then [hex_digit_upper n]
      else hex_upper_fuel fuel' (n / 16)%Z ++ [hex_digit_upper (n mod 16)%Z]
  end.

Definition hex_upper (n : Z) : str :=
  hex_upper_fuel (S (Z.to_nat (Z.log2 n))) n.

(** Left padding with the character 0 up to [width]. *)
Definition zfill (width : nat) (s : str) : str :=
  replicate (width - length s) 48%Z ++ s.

(** The format specification [08X]: upper-case hexadecimal, sign-aware
    zero padding to a minimum width of 8. *)
Definition format_08X (n : Z) : str :=
  if (n <? 0)%Z then 45%Z :: zfill 7 (hex_upper (- n))
  else zfill 8 (hex_upper n).

End Py.

(** ** The hasher (lines 17-33) *)

Section Hasher.

(** [str.lower]: Python's full Unicode lower-casing of a string.  It is a
    library function; the development is parametric in it. *)
Variable lower : str → str.

(** One iteration of the loop body (lines 25-27). *)
Definition joaat_step (hash_value : Z) (char : Z) : Z :=
  let hash_value := Z.land (hash_value + char) 0xFFFFFFFF in
  let hash_value := Z.land (hash_value + Z.shiftl hash_value 10) 0xFFFFFFFF in
  Z.land (Z.lxor hash_value (Z.shiftr hash_value 6)) 0xFFFFFFFF.

(** The three statements after the loop (lines 29-31). *)
Definition joaat_finish (hash_value : Z) : Z :=
  let hash_value := Z.land (hash_value + Z.shiftl hash_value 3) 0xFFFFFFFF in
  let hash_value := Z.land (Z.lxor hash_value (Z.shiftr hash_value 11)) 0xFFFFFFFF in
  Z.land (hash_value + Z.shiftl hash_value 15) 0xFFFFFFFF.

(** The value of [hash_value] at line 33. *)
Definition joaat_value (text : str) : Z :=
  joaat_finish (fold_left joaat_step (lower text) 0%Z).

(** [joaat_hash].  The [lru_cache] decorator memoises a pure function and
    does not change its result. *)
Definition joaat_hash (text : str) : str :=
  lit "hash_" ++ Py.format_08X (joaat_value text).

End Hasher.

(** ASCII lower-casing of one code point; [str.lower] agrees with it on
    strings of ASCII characters. *)
Definition ascii_lower_char (c : Z) : Z :=
  (if (65 <=? c) && (c <=? 90) then c + 32 else c)%Z.

Definition ascii_lower (s : str) : str := ascii_lower_char <$> s.

(** ** The compiled pattern (line 38) and [Pattern.sub] *)

Module Re.

(** The character class [[0-9A-Fa-f]]. *)
Definition hex_class (c : Z) : bool :=
  ((48 <=? c) && (c <=? 57) || (65 <=? c) && (c <=? 70)
   || (97 <=? c) && (c <=? 102))%Z.

(** [hash_pattern.match] at the start of [s]: the literal [hash_], then
    exactly eight characters of the class.  On success the matched text
    ([m.group(0)]) and the rest of the string. *)
Definition hash_pattern_match (s : str) : option (str * str) :=
  let tag := take 5 s in
  let digits := take 8 (drop 5 s) in
  if bool_decide (tag = lit "hash_") && bool_decide (length digits = 8)
     && forallb hex_class digits
  then Some (take 13 s, drop 13 s)
  else None.

(** [hash_pattern.sub(repl, s)]: scan from the left; where the pattern
    matches, emit [repl] of the match and go on after it; elsewhere copy
    one character.  Every step consumes a character, so [length s] steps
    are enough. *)
Fixpoint sub_fuel (fuel : nat) (repl : str → str) (s : str) : str :=
  match fuel with
  | O => s
  | S fuel' =>
      match s with
      | [] => []
      | c :: s' =>
          match hash_pattern_match s with
          | Some (m, rest) => repl m ++ sub_fuel fuel' repl rest
          | None => c :: sub_fuel fuel' repl s'
          end
      end
  end.

Definition hash_pattern_sub (repl : str → str) (s : str) : str :=
  sub_fuel (length s) repl s.

(** [hash_pattern.search(s)]: the first match in [s], if any. *)
Fixpoint hash_pattern_search (s : str) : option str :=
  match s with
  | [] => None
  | _ :: s' =>
      match hash_pattern_match s with
      | Some (m, _) => Some m
      | None => hash_pattern_search s'
      end
  end.

End Re.

(** The replacement function of line 62: [nametable.get(m.group(0), m.group(0))]. *)
Definition repl (nametable : table) (m : str) : str :=
  default m (nametable !! m).

(** Lines 61-64: the new content. *)
Definition substitute (nametable : table) (content : str) : str :=
  Re.hash_pattern_sub (repl nametable) content.

(** Line 67: [new_content != content]. *)
Definition changed (content new_content : str) : bool :=
  bool_decide (new_content ≠ content).

(** ** Files, exceptions and the log *)

Abbreviation path := string.

(** What a file holds: text (its decoding as UTF-8), or bytes that are not
    valid UTF-8. *)
Inductive file_data :=
  | Text (content : str)
  | Undecodable.

Inductive exn :=
  | FileNotFoundError (p : path)
  | UnicodeDecodeError (p : path)
  | PermissionError (p : path).

Inductive message :=
  | Loaded (entries : nat)
  | ErrorLoadingNametable (e : exn)
  | Processed (p : path)
  | NoChangesNeeded (p : path)
  | ErrorProcessing (p : path) (e : exn)
  | NoNametableSelected
  | NoXmlSelected
  | AnErrorOccurred (e : exn).

Inductive event :=
  | Read (p : path)
  | Written (p : path) (content : str)
  | LogInfo (m : message)
  | LogError (m : message)
  | ShowInfoSuccess
  | ShowError (e : exn)
  | RootDestroy.

(** The processor object ([self.nametable]) together with the world it acts
    on: the files, the paths that cannot be opened for writing, and what
    was done so far, oldest first. *)
Record state := State {
  nametable : table;
  files : gmap string file_data;
  readonly : gset string;
  trace : list event
}.

Inductive result (A : Type) :=
  | Ok (a : A)
  | Raise (e : exn).
Arguments Ok {A} a.
Arguments Raise {A} e.

(** State and exceptions. *)
Definition M (A : Type) : Type := state → result A * state.

Definition ret {A} (a : A) : M A := fun σ => (Ok a, σ).

Definition bind {A B} (k : A → M B) (m : M A) : M B :=
  fun σ => match m σ with
           | (Ok a, σ') => k a σ'
           | (Raise e, σ') => (Raise e, σ')
           end.

#[global] Instance M_ret : MRet M := @ret.
#[global] Instance M_bind : MBind M := @bind.

Definition raise {A} (e : exn) : M A := fun σ => (Raise e, σ).

(** [try: body except Exception as e: handler(e)]. *)
Definition try_except {A} (body : M A) (handler : exn → M A) : M A :=
  fun σ => match body σ with
           | (Ok a, σ') => (Ok a, σ')
           | (Raise e, σ') => handler e σ'
           end.

(** [try: body finally: cleanup]. *)
Definition try_finally {A} (body : M A) (cleanup : M unit) : M A :=
  fun σ => match body σ with
           | (r, σ') => match cleanup σ' with
                        | (Ok _, σ'') => (r, σ'')
                        | (Raise e, σ'') => (Raise e, σ'')
                        end
           end.

Definition emit (ev : event) : M unit :=
  fun σ => (Ok tt, State (nametable σ) (files σ) (readonly σ) (trace σ ++ [ev])).

Definition get_nametable : M table := fun σ => (Ok (nametable σ), σ).

Definition set_nametable (t : table) : M unit :=
  fun σ => (Ok tt, State t (files σ) (readonly σ) (trace σ)).

Module Io.

(** Text mode with the default [newline=None]: on input, the line endings
    CR LF and CR become LF. *)
Fixpoint universal_newlines (s : str) : str :=
  match s with
  | [] => []
  | c :: s' =>
      if (c =? 13)%Z then
        10%Z :: match s' with
                | c' :: s'' =>
                    if (c' =? 10)%Z then universal_newlines s''
                    else universal_newlines s'
                | [] => []
                end
      else c :: universal_newlines s'
  end.

(** Iterating a text file: the lines, each with its final LF. *)
Fixpoint lines_from (cur : str) (s : str) : list str :=
  match s with
  | [] => match cur with [] => [] | _ => [reverse cur] end
  | c :: s' =>
      if (c =? 10)%Z then reverse (c :: cur) :: lines_from [] s'
      else lines_from (c :: cur) s'
  end.

Definition lines (s : str) : list str := lines_from [] s.

(** [open(p, "r", encoding="utf-8")] and reading the whole text.  The
    failures modelled are a missing file and bytes that do not decode; the
    other errors of [open] (a directory, a file without read permission)
    are left out. *)
Definition read_text (p : path) : M str :=
  fun σ => match files σ !! p with
           | None => (Raise (FileNotFoundError p), σ)
           | Some Undecodable => (Raise (UnicodeDecodeError p), σ)
           | Some (Text s) =>
               (Ok (universal_newlines s),
                State (nametable σ) (files σ) (readonly σ) (trace σ ++ [Read p]))
           end.

(** [open(p, "w", encoding="utf-8")] and [f.write(s)].  The failure
    modelled is a file that cannot be opened for writing, which leaves it as
    it was; a write that fails after [open] has truncated the file is left
    out. *)
Definition write_text (p : path) (s : str) : M unit :=
  fun σ => if bool_decide (p ∈ readonly σ) then (Raise (PermissionError p), σ)
           else (Ok tt, State (nametable σ) (<[p := Text s]> (files σ))
                          (readonly σ) (trace σ ++ [Written p s])).

End Io.

(** ** The processor (lines 35-81) and [main] *)

Section Processor.

Variable lower : str → str.

(** The dictionary comprehension of lines 44-48 over the lines of the
    file: a later line with the same key replaces the earlier entry. *)
Definition nametable_of_lines (lines : list str) : table :=
  fold_left
    (fun (d : table) (line : str) =>
       if bool_decide (Py.strip line ≠ [])
       then <[joaat_hash lower (Py.strip line) := Py.strip line]> d
       else d)
    lines ∅.

Definition load_nametable (filepath : path) : M unit :=
  try_except
    (text ← Io.read_text filepath ;
     let t := nametable_of_lines (Io.lines text) in
     set_nametable t ;;
     emit (LogInfo (Loaded (size t))))
    (fun e => emit (LogError (ErrorLoadingNametable e)) ;; raise e).

Definition process_xml_file (xml_file : path) : M unit :=
  try_except
    (content ← Io.read_text xml_file ;
     self_nametable ← get_nametable ;
     let new_content := substitute self_nametable content in
     if changed content new_content
     then Io.write_text xml_file new_content ;;
          emit (LogInfo (Processed xml_file))
     else emit (LogInfo (NoChangesNeeded xml_file)))
    (fun e => emit (LogError (ErrorProcessing xml_file e)) ;; raise e).

(** [list(executor.map(self.process_xml_file, xml_files))] inside
    [with ThreadPoolExecutor()].  [Executor.map] submits every call, and
    the results are taken in list order.  The first call whose result is
    an exception makes the iterator re-raise it and cancel the calls that
    no worker has started yet; leaving the [with] block waits for the
    started ones.  [started i] tells whether call [i], after the first
    failure, was started before its cancellation.  Calls work on their
    own file; their effects are applied in list order: this is the run of
    a list of distinct paths, up to the order in which the records of
    different calls reach the log.
    [failed] is the exception to re-raise, once there is one. *)
Fixpoint run_calls (started : nat → bool) (i : nat) (failed : option exn)
    (xml_files : list path) (σ : state) : option exn * state :=
  match xml_files with
  | [] => (failed, σ)
  | p :: ps =>
      match failed with
      | None =>
          match process_xml_file p σ with
          | (Ok _, σ') => run_calls started (S i) None ps σ'
          | (Raise e, σ') => run_calls started (S i) (Some e) ps σ'
          end
      | Some e =>
          if started i
          then run_calls started (S i) failed ps (process_xml_file p σ).2
          else run_calls started (S i) failed ps σ
      end
  end.

Definition process_files (started : nat → bool) (xml_files : list path) : M unit :=
  fun σ => match run_calls started 0 None xml_files σ with
           | (None, σ') => (Ok tt, σ')
           | (Some e, σ') => (Raise e, σ')
           end.

(** [main] (lines 89-122); the two dialogs answer [nametable_path] and
    [xml_paths] (empty when cancelled).  The calls of Tk (the root window,
    the dialogs, the message boxes) are taken to succeed. *)
Definition main (started : nat → bool) (nametable_path : path)
    (xml_paths : list path) : M unit :=
  try_finally
    (try_except
       (if bool_decide (nametable_path = EmptyString)
        then emit (LogInfo NoNametableSelected)
        else if bool_decide (xml_paths = [])
        then emit (LogInfo NoXmlSelected)
        else
          set_nametable ∅ ;;
          load_nametable nametable_path ;;
          process_files started xml_paths ;;
          emit ShowInfoSuccess)
       (fun e => emit (LogError (AnErrorOccurred e)) ;; emit (ShowError e)))
    (emit RootDestroy).

End Processor.

(** ** The hash as the specification words it *)

Module Spec.

(** The per-character mixing: add the code point, add the accumulator
    shifted left by 10, XOR the accumulator shifted right by 6, each
    reduced modulo 2^32. *)
Fixpoint one_at_a_time_loop (acc : Z) (cps : str) : Z :=
  match cps with
  | [] => acc
  | cp :: cps' =>
      let acc := ((acc + cp) mod 2 ^ 32)%Z in
      let acc := ((acc + acc * 2 ^ 10) mod 2 ^ 32)%Z in
      let acc := (Z.lxor acc (acc / 2 ^ 6) mod 2 ^ 32)%Z in
      one_at_a_time_loop acc cps'
  end.

(** The final avalanche. *)
Definition one_at_a_time (cps : str) : Z :=
  let acc := one_at_a_time_loop 0%Z cps in
  let acc := ((acc + acc * 2 ^ 3) mod 2 ^ 32)%Z in
  let acc := (Z.lxor acc (acc / 2 ^ 11) mod 2 ^ 32)%Z in
  ((acc + acc * 2 ^ 15) mod 2 ^ 32)%Z.

Definition upper_hex_char (d : Z) : Z :=
  nth (Z.to_nat d) (lit "0123456789ABCDEF") 0%Z.

(** Exactly eight upper-case hexadecimal digits, most significant first. *)
Definition hex8 (n : Z) : str :=
  (fun k => upper_hex_char ((n / 16 ^ k) mod 16)%Z) <$> [7; 6; 5; 4; 3; 2; 1; 0]%Z.

Definition hash_token (lowered : str) : str :=
  lit "hash_" ++ hex8 (one_at_a_time lowered).

End Spec.

(** [j] digits of [n] in base 16, most significant first. *)
Fixpoint digits16 (j : nat) (n : Z) : str :=
  match j with
  | O => []
  | S j' => digits16 j' (n / 16)%Z ++ [Py.hex_digit_upper (n mod 16)%Z]
  end.


(** ** The substitution as the specification words it *)

Module Grammar.

(** [HEXDIGIT = [0-9A-Fa-f]]. *)
Definition HEXDIGIT (c : Z) : Prop := c ∈ lit "0123456789ABCDEFabcdef".

(** A token: the literal [hash_] followed by exactly eight [HEXDIGIT]s. *)
Definition token (t : str) : Prop :=
  ∃ ds, t = lit "hash_" ++ ds ∧ length ds = 8 ∧ Forall HEXDIGIT ds.

(** A match of the token pattern begins at the start of [s]. *)
Definition token_at (s : str) : Prop := ∃ t rest, token t ∧ s = t ++ rest.

(** Left to right, without overlap: where a token begins it is taken
    whole, looked up, and replaced by the table's value when it is a key
    and kept when it is not; where no token begins one character is
    kept. *)
Inductive substituted (tbl : table) : str → str → Prop :=
  | sub_end : substituted tbl [] []
  | sub_known t rest name out :
      token t → tbl !! t = Some name → substituted tbl rest out →
      substituted tbl (t ++ rest) (name ++ out)
  | sub_unknown t rest out :
      token t → tbl !! t = None → substituted tbl rest out →
      substituted tbl (t ++ rest) (t ++ out)
  | sub_other c rest out :
      ¬ token_at (c :: rest) → substituted tbl rest out →
      substituted tbl (c :: rest) (c :: out).

End Grammar.

(** ** Calls that ran *)

(** The state after the calls for [xml_files], one after the other. *)
Definition run_seq (xml_files : list path) (σ : state) : state :=
  fold_left (fun σ p => (process_xml_file p σ).2) xml_files σ.

(** Of the calls numbered from [i], those that had been started. *)
Fixpoint started_calls (started : nat → bool) (i : nat) (xml_files : list path)
    : list path :=
  match xml_files with
  | [] => []
  | p :: ps =>
      if started i then p :: started_calls started (S i) ps
      else started_calls started (S i) ps
  end.

(** ** A sample run *)

(** A directory with the source list [names.txt] holding the one name [a],
    whose token is [hash_CA2E9442], and three target files; [gone.xml] is
    not there. *)
Definition sample_files : gmap string file_data :=
  {[ "names.txt" := Text (lit "a");
     "a.xml" := Text (lit "<x>hash_CA2E9442</x>");
     "b.xml" := Text (lit "<x>hash_00000000</x>");
     "c.xml" := Text (lit "<y>hash_CA2E9442</y>") ]}.

(** The processor after [load_nametable], before any target file. *)
Definition sample_loaded : state :=
  State (nametable_of_lines ascii_lower [lit "a"]) sample_files ∅ [].

(** The exception of a failed read. *)
Definition read_error (filepath : path) (d : option file_data) : exn :=
  match d with
  | Some Undecodable => UnicodeDecodeError filepath
  | _ => FileNotFoundError filepath
  end.

(** ** Isolation of failures, as the specification words it *)

(** The outcome of the call for [p] is in the log. *)
Definition outcome_logged (p : path) (σ : state) : Prop :=
  LogInfo (Processed p) ∈ trace σ ∨ LogInfo (NoChangesNeeded p) ∈ trace σ
  ∨ ∃ e, LogError (ErrorProcessing p e) ∈ trace σ.

(** Every file of the batch ends as its own processing leaves it, and its
    outcome is reported, whatever happens to the others. *)
Definition isolated (started : nat → bool) (xml_files : list path) (σ : state) : Prop :=
  ∀ p, p ∈ xml_files →
    files (process_files started xml_files σ).2 !! p
      = files (process_xml_file p σ).2 !! p
    ∧ outcome_logged p (process_files started xml_files σ).2.

(** Running [process_xml_file] on a file whose lookup [Hf] is known. *)
Ltac run_file Hf :=
  unfold process_xml_file, try_except, mbind, M_bind, bind, Io.read_text,
    get_nametable;
  rewrite Hf; cbn [nametable files readonly trace].


(** ** Texts made of lines *)

(** The text of a file with one name per line, every line ended by [eol]. *)
Fixpoint text_of_lines (eol : str) (names : list str) : str :=
  match names with
  | [] => []
  | name :: names' => name ++ eol ++ text_of_lines eol names'
  end.

(** A character that is neither LF nor CR. *)
Definition not_eol (c : Z) : Prop := c ≠ 10%Z ∧ c ≠ 13%Z.

(** ** What a call does to the files *)

(** What [process_xml_file] writes into the file at [p] holding [d], if it
    writes: the new content, when the file is text, the new content differs
    from the content read, and the file can be opened for writing. *)
Definition written_data (nt : table) (ro : gset string) (p : path)
    (d : option file_data) : option file_data :=
  match d with
  | Some (Text raw) =>
      let content := Io.universal_newlines raw in
      let new_content := substitute nt content in
      if changed content new_content && negb (bool_decide (p ∈ ro))
      then Some (Text new_content)
      else None
  | _ => None
  end.

(** The files after the call for [p]. *)
Definition files_after (nt : table) (ro : gset string)
    (fs : gmap string file_data) (p : path) : gmap string file_data :=
  match written_data nt ro p (fs !! p) with
  | Some d => <[p := d]> fs
  | None => fs
  end.

(** Whether the call for [p] on a file holding [d] returns normally. *)
Definition call_succeeds (nt : table) (ro : gset string) (p : path)
    (d : option file_data) : bool :=
  match d with
  | Some (Text raw) =>
      let content := Io.universal_newlines raw in
      negb (changed content (substitute nt content) && bool_decide (p ∈ ro))
  | _ => false
  end.

(** ** Runs of [main] *)

(** The state [σ] after the events [evs]. *)
Definition after_events (σ : state) (evs : list event) : state :=
  State (nametable σ) (files σ) (readonly σ) (trace σ ++ evs).

(** What [main] does at its end with the outcome of the two steps. *)
Definition main_end (r : result unit) (σ : state) : state :=
  match r with
  | Ok _ => after_events σ [ShowInfoSuccess; RootDestroy]
  | Raise e => after_events σ [LogError (AnErrorOccurred e); ShowError e; RootDestroy]
  end.

(** An event that only [main] itself emits. *)
Definition main_event (ev : event) : bool :=
  match ev with
  | ShowInfoSuccess | ShowError _ | RootDestroy => true
  | _ => false
  end.

(** ** The matches of the pattern *)

(** [hash_pattern.findall(s)]: the matched texts, from left to right and
    without overlap, as [sub] meets them. *)
Fixpoint findall_fuel (fuel : nat) (s : str) : list str :=
  match fuel with
  | O => []
  | S fuel' =>
      match s with
      | [] => []
      | _ :: s' =>
          match Re.hash_pattern_match s with
          | Some (m, rest) => m :: findall_fuel fuel' rest
          | None => findall_fuel fuel' s'
          end
      end
  end.

Definition hash_pattern_findall (s : str) : list str :=
  findall_fuel (length s) s.
(** * Properties *)

(** ** The hasher *)

Lemma digits16_zero j : digits16 j 0 = replicate j 48%Z.
Proof.
  induction j as [|j IH]; [reflexivity|].
  cbn [digits16]. rewrite Zdiv_0_l, Zmod_0_l, IH.
  change [Py.hex_digit_upper 0] with (replicate 1 48%Z).
  rewrite <- replicate_add. f_equal. lia.
Qed.

Lemma digits16_small j n :
  (0 ≤ n < 16)%Z → digits16 (S j) n = replicate j 48%Z ++ [Py.hex_digit_upper n].
Proof.
  intros Hn. cbn [digits16].
  rewrite Z.div_small, Z.mod_small, digits16_zero by lia. reflexivity.
Qed.

Lemma zfill_snoc w r d :
  length r ≤ w → Py.zfill (S w) (r ++ [d]) = Py.zfill w r ++ [d].
Proof.
  intros Hl. unfold Py.zfill. rewrite length_app. cbn [length].
  rewrite <- app_assoc. f_equal. f_equal. lia.
Qed.

Lemma hex_upper_fuel_digits fuel : ∀ n w,
  (0 ≤ n < 16 ^ Z.of_nat fuel)%Z → (n < 16 ^ Z.of_nat w)%Z → 1 ≤ fuel → 1 ≤ w →
  length (Py.hex_upper_fuel fuel n) ≤ w
  ∧ Py.zfill w (Py.hex_upper_fuel fuel n) = digits16 w n.
Proof.
  induction fuel as [|fuel IH]; intros n w Hf Hw Hfuel Hw1; [lia|].
  cbn [Py.hex_upper_fuel]. destruct (Z.ltb_spec n 16) as [Hlt|Hge].
  - split; [cbn; lia|]. destruct w as [|w]; [lia|].
    rewrite digits16_small by lia. unfold Py.zfill. cbn [length].
    f_equal. f_equal. lia.
  - destruct fuel as [|fuel]; [change (16 ^ Z.of_nat 1)%Z with 16%Z in Hf; lia|].
    destruct w as [|[|w]]; [lia|change (16 ^ Z.of_nat 1)%Z with 16%Z in Hw; lia|].
    destruct (IH (n / 16)%Z (S w)) as [Hlen Hz].
    + split; [apply Z.div_pos; lia|].
      apply Z.div_lt_upper_bound; [lia|].
      rewrite <- Z.pow_succ_r, <- Nat2Z.inj_succ by lia. lia.
    + apply Z.div_lt_upper_bound; [lia|].
      rewrite <- Z.pow_succ_r, <- Nat2Z.inj_succ by lia. lia.
    + lia.
    + lia.
    + split; [rewrite length_app; cbn [length]; lia|].
      rewrite zfill_snoc by lia. rewrite Hz. reflexivity.
Qed.

Lemma hex_upper_enough_fuel n :
  (0 ≤ n)%Z → (n < 16 ^ Z.of_nat (S (Z.to_nat (Z.log2 n))))%Z.
Proof.
  intros Hn. destruct (Z.eq_dec n 0%Z) as [->|Hne]; [reflexivity|].
  pose proof (Z.log2_nonneg n) as Hl.
  pose proof (Z.log2_spec n ltac:(lia)) as [_ Hup].
  rewrite Nat2Z.inj_succ, Z2Nat.id by lia.
  eapply Z.lt_le_trans; [exact Hup|].
  apply Z.pow_le_mono_l. lia.
Qed.

Lemma hex_digit_upper_char d :
  (0 ≤ d < 16)%Z → Py.hex_digit_upper d = Spec.upper_hex_char d.
Proof.
  intros Hd.
  assert (d = 0 ∨ d = 1 ∨ d = 2 ∨ d = 3 ∨ d = 4 ∨ d = 5 ∨ d = 6 ∨ d = 7
          ∨ d = 8 ∨ d = 9 ∨ d = 10 ∨ d = 11 ∨ d = 12 ∨ d = 13 ∨ d = 14
          ∨ d = 15)%Z as Hcases by lia.
  repeat (destruct Hcases as [->|Hcases]; [reflexivity|]).
  subst d. reflexivity.
Qed.

Lemma digits16_8_hex8 n : digits16 8 n = Spec.hex8 n.
Proof.
  unfold Spec.hex8. cbn [digits16 fmap list_fmap app].
  rewrite !Z.div_div by lia.
  rewrite !hex_digit_upper_char by (apply Z.mod_pos_bound; lia).
  rewrite Z.pow_0_r, Z.div_1_r. reflexivity.
Qed.

Lemma format_08X_hex8 n :
  (0 ≤ n < 2 ^ 32)%Z → Py.format_08X n = Spec.hex8 n.
Proof.
  intros Hn. unfold Py.format_08X, Py.hex_upper.
  destruct (Z.ltb_spec n 0) as [?|_]; [lia|].
  rewrite <- digits16_8_hex8.
  apply hex_upper_fuel_digits; [|exact (proj2 Hn)|lia|lia].
  split; [lia|]. apply hex_upper_enough_fuel. lia.
Qed.

Lemma land_mask32 x : Z.land x 0xFFFFFFFF = (x mod 2 ^ 32)%Z.
Proof. change 0xFFFFFFFF%Z with (Z.ones 32). apply Z.land_ones. lia. Qed.

Lemma joaat_step_spec acc cps :
  fold_left joaat_step cps acc = Spec.one_at_a_time_loop acc cps.
Proof.
  revert acc. induction cps as [|cp cps IH]; intros acc; [reflexivity|].
  cbn [fold_left Spec.one_at_a_time_loop]. rewrite IH. f_equal.
  unfold joaat_step. rewrite !land_mask32.
  rewrite Z.shiftl_mul_pow2, Z.shiftr_div_pow2 by lia. reflexivity.
Qed.

Lemma joaat_value_spec lower text :
  joaat_value lower text = Spec.one_at_a_time (lower text).
Proof.
  unfold joaat_value, joaat_finish, Spec.one_at_a_time.
  rewrite joaat_step_spec, !land_mask32.
  rewrite !Z.shiftl_mul_pow2, Z.shiftr_div_pow2 by lia. reflexivity.
Qed.

Lemma joaat_value_range lower text : (0 ≤ joaat_value lower text < 2 ^ 32)%Z.
Proof.
  unfold joaat_value, joaat_finish. rewrite (land_mask32 (_ + _)).
  apply Z.mod_pos_bound. lia.
Qed.

Lemma joaat_hash_hash_token lower s :
  joaat_hash lower s = Spec.hash_token (lower s).
Proof.
  unfold joaat_hash, Spec.hash_token. f_equal.
  rewrite format_08X_hex8 by apply joaat_value_range.
  rewrite joaat_value_spec. reflexivity.
Qed.

(** C1: [joaat_hash] is the Jenkins one-at-a-time hash of the lower-cased
    text, every operation reduced modulo 2^32, rendered as [hash_] followed
    by exactly eight upper-case hexadecimal digits; so two strings with the
    same lower-cased form (differing only in letter case) get the same
    token. *)
Theorem joaat_hash_one_at_a_time (lower : str → str) :
  (∀ s, joaat_hash lower s = Spec.hash_token (lower s))
  ∧ (∀ a b, lower a = lower b → joaat_hash lower a = joaat_hash lower b).
Proof.
  split; [apply joaat_hash_hash_token|].
  intros a b Hab. rewrite !joaat_hash_hash_token, Hab. reflexivity.
Qed.

Lemma joaat_hash_one_at_a_time_witness :
  ascii_lower (lit "Player_Ped") = ascii_lower (lit "PLAYER_ped")
  ∧ joaat_hash ascii_lower (lit "Player_Ped") = joaat_hash ascii_lower (lit "PLAYER_ped").
Proof.
  split; [reflexivity|].
  apply (proj2 (joaat_hash_one_at_a_time ascii_lower)). reflexivity.
Defined.

(** ** The pattern *)

Lemma hex_class_HEXDIGIT c : Re.hex_class c = true ↔ Grammar.HEXDIGIT c.
Proof.
  unfold Grammar.HEXDIGIT, Re.hex_class. split.
  - intros H. rewrite !orb_true_iff, !andb_true_iff, !Z.leb_le in H.
    assert (c = 48 ∨ c = 49 ∨ c = 50 ∨ c = 51 ∨ c = 52 ∨ c = 53 ∨ c = 54
            ∨ c = 55 ∨ c = 56 ∨ c = 57 ∨ c = 65 ∨ c = 66 ∨ c = 67 ∨ c = 68
            ∨ c = 69 ∨ c = 70 ∨ c = 97 ∨ c = 98 ∨ c = 99 ∨ c = 100
            ∨ c = 101 ∨ c = 102)%Z as Hc by lia.
    repeat (destruct Hc as [->|Hc];
            [apply (bool_decide_unpack _); vm_compute; exact I|]).
    subst c. apply (bool_decide_unpack _). vm_compute. exact I.
  - intros H. repeat (apply elem_of_cons in H as [->|H]; [reflexivity|]).
    inversion H.
Qed.

Lemma forallb_hex_class ds :
  forallb Re.hex_class ds = true ↔ Forall Grammar.HEXDIGIT ds.
Proof.
  induction ds as [|d ds IH]; cbn [forallb].
  - split; [constructor|reflexivity].
  - rewrite andb_true_iff, Forall_cons, IH, hex_class_HEXDIGIT. reflexivity.
Qed.

Lemma hash_pattern_match_Some s m rest :
  Re.hash_pattern_match s = Some (m, rest) ↔ Grammar.token m ∧ s = m ++ rest.
Proof.
  unfold Re.hash_pattern_match. split.
  - destruct (bool_decide _ && bool_decide _ && forallb _ _) eqn:Hc; [|discriminate].
    intros [= <- <-]. rewrite !andb_true_iff in Hc. destruct Hc as [[Ht Hl] Hd].
    apply bool_decide_eq_true in Ht, Hl. apply forallb_hex_class in Hd.
    split; [|symmetry; apply take_drop].
    exists (take 8 (drop 5 s)). split; [|split; assumption].
    rewrite <- Ht. symmetry. apply (take_take_drop s 5 8).
  - intros [(ds & -> & Hl & Hd) ->].
    change (lit "hash_") with [104; 97; 115; 104; 95]%Z.
    cbn [app take drop]. rewrite take_0, drop_0.
    rewrite (take_app_length' ds rest 8), (drop_app_length' ds rest 8) by (symmetry; exact Hl).
    apply forallb_hex_class in Hd. rewrite Hd.
    rewrite !bool_decide_true by (reflexivity || exact Hl). reflexivity.
Qed.

Lemma hash_pattern_match_None s :
  Re.hash_pattern_match s = None ↔ ¬ Grammar.token_at s.
Proof.
  split.
  - intros Hn (t & rest & Ht & ->).
    assert (Re.hash_pattern_match (t ++ rest) = Some (t, rest)) as Hs
      by (apply hash_pattern_match_Some; auto).
    congruence.
  - intros Hn. destruct (Re.hash_pattern_match s) as [[m rest]|] eqn:Hm; [|reflexivity].
    apply hash_pattern_match_Some in Hm as [Ht ->]. destruct Hn. exists m, rest. auto.
Qed.

Lemma token_length t : Grammar.token t → length t = 13.
Proof. intros (ds & -> & Hl & _). rewrite length_app, Hl. reflexivity. Qed.

Lemma hash_pattern_match_short s : length s < 13 → Re.hash_pattern_match s = None.
Proof.
  intros Hl. destruct (Re.hash_pattern_match s) as [[m rest]|] eqn:Hm; [|reflexivity].
  apply hash_pattern_match_Some in Hm as [Ht ->]. apply token_length in Ht.
  rewrite length_app in Hl. lia.
Qed.

(** ** [Pattern.sub] *)

Lemma sub_fuel_irrel f1 : ∀ f2 r s,
  length s ≤ f1 → length s ≤ f2 → Re.sub_fuel f1 r s = Re.sub_fuel f2 r s.
Proof.
  induction f1 as [|f1 IH]; intros f2 r s H1 H2.
  - destruct s; [|cbn in H1; lia]. destruct f2; reflexivity.
  - destruct f2 as [|f2]; [destruct s; [reflexivity|cbn in H2; lia]|].
    cbn [Re.sub_fuel]. destruct s as [|c s]; [reflexivity|].
    destruct (Re.hash_pattern_match (c :: s)) as [[m rest]|] eqn:Hm.
    + apply hash_pattern_match_Some in Hm as [Ht Hs]. apply token_length in Ht.
      assert (length (c :: s) = 13 + length rest) as Hlen
        by (rewrite Hs, length_app; lia).
      f_equal. apply IH; lia.
    + f_equal. cbn [length] in *. apply IH; lia.
Qed.

Lemma substitute_nil tbl : substitute tbl [] = [].
Proof. reflexivity. Qed.

Lemma substitute_match tbl s m rest :
  Re.hash_pattern_match s = Some (m, rest) →
  substitute tbl s = repl tbl m ++ substitute tbl rest.
Proof.
  intros Hm. unfold substitute, Re.hash_pattern_sub.
  pose proof Hm as Hm'. apply hash_pattern_match_Some in Hm' as [Ht Hs].
  apply token_length in Ht.
  destruct s as [|c s]; [discriminate Hm|].
  cbn [length Re.sub_fuel]. rewrite Hm. f_equal.
  apply sub_fuel_irrel; [|lia].
  assert (length (c :: s) = 13 + length rest) as Hlen by (rewrite Hs, length_app; lia).
  cbn [length] in Hlen. lia.
Qed.

Lemma substitute_nomatch tbl c s :
  Re.hash_pattern_match (c :: s) = None →
  substitute tbl (c :: s) = c :: substitute tbl s.
Proof.
  intros Hm. unfold substitute, Re.hash_pattern_sub.
  cbn [length Re.sub_fuel]. rewrite Hm. reflexivity.
Qed.

Lemma repl_known (tbl : table) t name : tbl !! t = Some name → repl tbl t = name.
Proof. intros H. unfold repl. rewrite H. reflexivity. Qed.

Lemma repl_unknown (tbl : table) t : tbl !! t = None → repl tbl t = t.
Proof. intros H. unfold repl. rewrite H. reflexivity. Qed.

Lemma substitute_substituted tbl n : ∀ content,
  length content ≤ n → Grammar.substituted tbl content (substitute tbl content).
Proof.
  induction n as [|n IH]; intros content Hn.
  - destruct content; [constructor|cbn in Hn; lia].
  - destruct content as [|c s]; [constructor|].
    destruct (Re.hash_pattern_match (c :: s)) as [[m rest]|] eqn:Hm.
    + rewrite (substitute_match _ _ _ _ Hm).
      apply hash_pattern_match_Some in Hm as [Ht Hs]. rewrite Hs.
      assert (length rest ≤ n) as Hr.
      { apply token_length in Ht.
        assert (length (c :: s) = 13 + length rest) by (rewrite Hs, length_app; lia).
        lia. }
      destruct (tbl !! m) as [name|] eqn:Hl.
      * rewrite (repl_known _ _ _ Hl). apply Grammar.sub_known; auto.
      * rewrite (repl_unknown _ _ Hl). apply Grammar.sub_unknown; auto.
    + rewrite (substitute_nomatch _ _ _ Hm).
      apply Grammar.sub_other; [apply hash_pattern_match_None; exact Hm|].
      apply IH. cbn [length] in Hn. lia.
Qed.

Lemma substituted_substitute tbl content out :
  Grammar.substituted tbl content out → out = substitute tbl content.
Proof.
  induction 1 as [|t rest name out Ht Hl _ IH|t rest out Ht Hl _ IH|c rest out Hn _ IH].
  - reflexivity.
  - rewrite (substitute_match tbl (t ++ rest) t rest)
      by (apply hash_pattern_match_Some; auto).
    rewrite (repl_known _ _ _ Hl), IH. reflexivity.
  - rewrite (substitute_match tbl (t ++ rest) t rest)
      by (apply hash_pattern_match_Some; auto).
    rewrite (repl_unknown _ _ Hl), IH. reflexivity.
  - rewrite substitute_nomatch by (apply hash_pattern_match_None; exact Hn).
    rewrite IH. reflexivity.
Qed.

(** C2: the substitution replaces, left to right and without overlap, each
    token that is a key of the table by the table's value, keeps each token
    that is not a key and all other text, and this determines its result;
    [changed] holds exactly when the result differs from the input. *)
Theorem substitute_spec (tbl : table) (content : str) :
  Grammar.substituted tbl content (substitute tbl content)
  ∧ (∀ out, Grammar.substituted tbl content out → out = substitute tbl content)
  ∧ (changed content (substitute tbl content) = true
     ↔ substitute tbl content ≠ content).
Proof.
  split; [apply (substitute_substituted tbl (length content)); lia|].
  split; [intros out; apply substituted_substitute|].
  unfold changed. apply bool_decide_eq_true.
Qed.

(** ** Tokens made by the hasher *)

Lemma upper_hex_char_upper d :
  (0 ≤ d < 16)%Z → Spec.upper_hex_char d ∈ lit "0123456789ABCDEF".
Proof.
  intros Hd.
  assert (d = 0 ∨ d = 1 ∨ d = 2 ∨ d = 3 ∨ d = 4 ∨ d = 5 ∨ d = 6 ∨ d = 7
          ∨ d = 8 ∨ d = 9 ∨ d = 10 ∨ d = 11 ∨ d = 12 ∨ d = 13 ∨ d = 14
          ∨ d = 15)%Z as Hcases by lia.
  repeat (destruct Hcases as [->|Hcases];
          [apply (bool_decide_unpack _); vm_compute; exact I|]).
  subst d. apply (bool_decide_unpack _). vm_compute. exact I.
Qed.

Lemma hex8_upper n : length (Spec.hex8 n) = 8 ∧ Forall (.∈ lit "0123456789ABCDEF") (Spec.hex8 n).
Proof.
  split; [reflexivity|]. unfold Spec.hex8. apply Forall_fmap, Forall_forall.
  intros k _. apply upper_hex_char_upper, Z.mod_pos_bound. lia.
Qed.

Lemma upper_HEXDIGIT c : c ∈ lit "0123456789ABCDEF" → Grammar.HEXDIGIT c.
Proof.
  intros H. unfold Grammar.HEXDIGIT.
  repeat (apply elem_of_cons in H as [->|H];
          [apply (bool_decide_unpack _); vm_compute; exact I|]).
  inversion H.
Qed.

Lemma upper_at_most_F c : c ∈ lit "0123456789ABCDEF" → (c ≤ 70)%Z.
Proof.
  intros H.
  repeat (apply elem_of_cons in H as [->|H]; [vm_compute; discriminate|]).
  inversion H.
Qed.

(** What the hasher returns is a token, with upper-case digits only. *)
Lemma joaat_hash_token lower s :
  Grammar.token (joaat_hash lower s)
  ∧ Forall (.∈ lit "0123456789ABCDEF") (drop 5 (joaat_hash lower s)).
Proof.
  rewrite joaat_hash_hash_token. unfold Spec.hash_token.
  destruct (hex8_upper (Spec.one_at_a_time (lower s))) as [Hl Hu].
  split.
  - eexists. split; [reflexivity|]. split; [exact Hl|].
    eapply Forall_impl; [exact Hu|]. apply upper_HEXDIGIT.
  - rewrite drop_app_length' by reflexivity. exact Hu.
Qed.

Lemma substitute_token tbl t : Grammar.token t → substitute tbl t = repl tbl t.
Proof.
  intros Ht.
  rewrite (substitute_match tbl t t [])
    by (apply hash_pattern_match_Some; rewrite app_nil_r; auto).
  rewrite substitute_nil, app_nil_r. reflexivity.
Qed.

(** ** The name table *)

Lemma nametable_of_lines_snoc lower lines line :
  nametable_of_lines lower (lines ++ [line]) =
    if bool_decide (Py.strip line ≠ [])
    then <[joaat_hash lower (Py.strip line) := Py.strip line]> (nametable_of_lines lower lines)
    else nametable_of_lines lower lines.
Proof. unfold nametable_of_lines. rewrite fold_left_app. reflexivity. Qed.

Lemma nametable_of_lines_lookup (lower : str → str) (lines : list str) :
  ∀ key name,
    nametable_of_lines lower lines !! key = Some name ↔
    ∃ i line,
      lines !! i = Some line ∧ Py.strip line ≠ []
      ∧ name = Py.strip line ∧ key = joaat_hash lower (Py.strip line)
      ∧ ∀ j line', i < j → lines !! j = Some line' → Py.strip line' ≠ [] →
          joaat_hash lower (Py.strip line') ≠ key.
Proof.
  induction lines as [|last lines IH] using rev_ind; intros key name.
  - split; [intros H; unfold nametable_of_lines in H; cbn [fold_left] in H;
             rewrite lookup_empty in H; discriminate|].
    intros (i & line & Hi & _). rewrite lookup_nil in Hi. discriminate.
  - rewrite nametable_of_lines_snoc. split.
    + intros Hlk. case_bool_decide as Hblank.
      * destruct (decide (joaat_hash lower (Py.strip last) = key)) as [Heq|Hne].
        -- subst key. rewrite lookup_insert_eq in Hlk. injection Hlk as <-.
           exists (length lines), last. rewrite list_lookup_middle by reflexivity.
           repeat split; auto.
           intros j line' Hj Hl. apply lookup_lt_Some in Hl.
           rewrite length_app in Hl. cbn in Hl. lia.
        -- rewrite lookup_insert_ne in Hlk by exact Hne.
           apply IH in Hlk as (i & line & Hi & Hnb & Hname & Hkey & Hlater).
           exists i, line. pose proof (lookup_lt_Some _ _ _ Hi) as Hlt.
           rewrite lookup_app_l by exact Hlt. repeat split; auto.
           intros j line' Hj Hl Hnb'.
           destruct (decide (j < length lines)) as [Hjl|Hjl].
           ++ rewrite lookup_app_l in Hl by exact Hjl. eauto.
           ++ rewrite lookup_app_r in Hl by lia.
              destruct (j - length lines) as [|?]; [|discriminate Hl].
              injection Hl as <-. exact Hne.
      * apply IH in Hlk as (i & line & Hi & Hnb & Hname & Hkey & Hlater).
        exists i, line. pose proof (lookup_lt_Some _ _ _ Hi) as Hlt.
        rewrite lookup_app_l by exact Hlt. repeat split; auto.
        intros j line' Hj Hl Hnb'.
        destruct (decide (j < length lines)) as [Hjl|Hjl].
        -- rewrite lookup_app_l in Hl by exact Hjl. eauto.
        -- rewrite lookup_app_r in Hl by lia.
           destruct (j - length lines) as [|?]; [|discriminate Hl].
           injection Hl as <-. destruct (Hnb' Hblank).
    + intros (i & line & Hi & Hnb & Hname & Hkey & Hlater).
      destruct (decide (i < length lines)) as [Hil|Hil].
      * rewrite lookup_app_l in Hi by exact Hil.
        assert (nametable_of_lines lower lines !! key = Some name) as Hold.
        { apply IH. exists i, line. repeat split; auto.
          intros j line' Hj Hl. apply (Hlater j line' Hj).
          rewrite lookup_app_l by (apply lookup_lt_Some in Hl; exact Hl). exact Hl. }
        case_bool_decide as Hblank; [|exact Hold].
        rewrite lookup_insert_ne; [exact Hold|].
        apply (Hlater (length lines) last); [exact Hil| |exact Hblank].
        apply list_lookup_middle. reflexivity.
      * rewrite lookup_app_r in Hi by lia.
        destruct (i - length lines) as [|?]; [|discriminate Hi].
        injection Hi as <-. rewrite bool_decide_true by exact Hnb.
        subst key name. apply lookup_insert_eq.
Qed.

Lemma nametable_of_lines_key lower lines line :
  line ∈ lines → Py.strip line ≠ [] →
  is_Some (nametable_of_lines lower lines !! joaat_hash lower (Py.strip line)).
Proof.
  induction lines as [|last lines IH] using rev_ind; intros Hin Hnb.
  - inversion Hin.
  - rewrite nametable_of_lines_snoc.
    apply elem_of_app in Hin as [Hin|Hin].
    + case_bool_decide; [|auto].
      rewrite lookup_insert_is_Some. 
      destruct (decide (joaat_hash lower (Py.strip last)
                        = joaat_hash lower (Py.strip line))); auto.
    + apply list_elem_of_singleton in Hin as ->.
      rewrite bool_decide_true by exact Hnb. rewrite lookup_insert_eq. eauto.
Qed.

(** C3: the table maps a key to a value exactly when some line with a
    non-empty trimmed form has that trimmed form as the value and its hash as
    the key, and no later non-blank line has the same hash token: blank
    lines add nothing, and of two lines with one token the later wins.
    The token of every non-blank line is a key. *)
Theorem nametable_of_lines_spec (lower : str → str) (lines : list str) :
  (∀ key name,
    nametable_of_lines lower lines !! key = Some name ↔
    ∃ i line,
      lines !! i = Some line ∧ Py.strip line ≠ []
      ∧ name = Py.strip line ∧ key = joaat_hash lower (Py.strip line)
      ∧ ∀ j line', i < j → lines !! j = Some line' → Py.strip line' ≠ [] →
          joaat_hash lower (Py.strip line') ≠ key)
  ∧ (∀ line, line ∈ lines → Py.strip line ≠ [] →
       is_Some (nametable_of_lines lower lines !! joaat_hash lower (Py.strip line))).
Proof.
  split; [apply nametable_of_lines_lookup|apply nametable_of_lines_key].
Qed.

Lemma nametable_of_lines_spec_witness :
  let tbl := nametable_of_lines ascii_lower
               [lit "  Player_Ped "; lit "   "; lit "PLAYER_PED"; lit ""] in
  tbl !! joaat_hash ascii_lower (lit "player_ped") = Some (lit "PLAYER_PED")
  ∧ size tbl = 1.
Proof.
  cbv zeta. split; [|vm_compute; reflexivity].
  apply (proj1 (nametable_of_lines_spec ascii_lower _)).
  exists 2, (lit "PLAYER_PED"). split; [reflexivity|].
  split; [vm_compute; discriminate|]. split; [reflexivity|].
  split; [vm_compute; reflexivity|].
  intros [|[|[|[|j]]]] line' Hj Hl Hnb; try lia.
  - injection Hl as <-. destruct Hnb. reflexivity.
  - discriminate Hl.
Defined.

(** C4, amended: for a source line whose trimmed form [L] is non-empty and
    is the entry of its token in the table, the substitution applied to
    exactly the token of [L] gives exactly [L]; [changed] holds exactly when
    [L] is not itself that token. *)
Theorem round_trip (lower : str → str) (lines : list str) (line : str) :
  line ∈ lines → Py.strip line ≠ [] →
  nametable_of_lines lower lines !! joaat_hash lower (Py.strip line)
    = Some (Py.strip line) →
  substitute (nametable_of_lines lower lines) (joaat_hash lower (Py.strip line))
    = Py.strip line
  ∧ (changed (joaat_hash lower (Py.strip line))
       (substitute (nametable_of_lines lower lines) (joaat_hash lower (Py.strip line)))
     = true ↔ Py.strip line ≠ joaat_hash lower (Py.strip line)).
Proof.
  intros _ _ Hwin.
  rewrite substitute_token by apply joaat_hash_token.
  rewrite (repl_known _ _ _ Hwin). split; [reflexivity|].
  unfold changed. apply bool_decide_eq_true.
Qed.

Lemma round_trip_witness :
  substitute (nametable_of_lines ascii_lower [lit "Player_Ped"; lit " Vehicle_Model "])
    (joaat_hash ascii_lower (lit "Vehicle_Model")) = lit "Vehicle_Model".
Proof.
  apply (round_trip ascii_lower [lit "Player_Ped"; lit " Vehicle_Model "]
           (lit " Vehicle_Model ")).
  - apply (bool_decide_unpack _). vm_compute. exact I.
  - vm_compute. discriminate.
  - vm_compute. reflexivity.
Defined.

(** C4 as stated fails: the line [hash_5347A605] is its own token, so the
    content is returned as it was and [changed] is false. *)
Lemma round_trip_counterexample :
  let L := lit "hash_5347A605" in
  let tbl := nametable_of_lines ascii_lower [L] in
  L ∈ [L] ∧ Py.strip L = L ∧ L ≠ []
  ∧ tbl !! joaat_hash ascii_lower L = Some L
  ∧ substitute tbl (joaat_hash ascii_lower L) = L
  ∧ ¬ (changed (joaat_hash ascii_lower L) (substitute tbl (joaat_hash ascii_lower L)) = true).
Proof.
  cbv zeta. split; [apply list_elem_of_here|].
  split; [vm_compute; reflexivity|]. split; [discriminate|].
  split; [vm_compute; reflexivity|]. split; [vm_compute; reflexivity|].
  vm_compute. discriminate.
Qed.

(** ** Tokens do not overlap *)

Lemma not_HEXDIGIT_h : ¬ Grammar.HEXDIGIT 104.
Proof. intros H. apply hex_class_HEXDIGIT in H. discriminate H. Qed.

(** A token that begins inside another text's token cannot exist: a match
    found in [pre ++ t ++ post] before the token [t] ends before [t]. *)
Lemma token_no_overlap m t pre rest post :
  Grammar.token m → Grammar.token t → pre ≠ [] →
  pre ++ t ++ post = m ++ rest → 13 ≤ length pre.
Proof.
  intros (dm & -> & Hlm & Hdm) (dt & -> & Hlt & Hdt) Hpre Heq.
  destruct (decide (13 ≤ length pre)) as [|Hshort]; [assumption|exfalso].
  assert (0 < length pre) as Hpos by (destruct pre; [congruence|cbn; lia]).
  assert (((lit "hash_" ++ dm) ++ rest) !! length pre = Some 104%Z) as H0.
  { rewrite <- Heq, lookup_app_r, Nat.sub_diag by lia. reflexivity. }
  assert (((lit "hash_" ++ dm) ++ rest) !! S (length pre) = Some 97%Z) as H1.
  { rewrite <- Heq, lookup_app_r by lia.
    replace (S (length pre) - length pre) with 1 by lia. reflexivity. }
  change (lit "hash_") with [104; 97; 115; 104; 95]%Z in H0, H1.
  destruct (length pre) as [|[|[|[|[|n]]]]]; cbn in H0, H1;
    try discriminate; try lia.
  change ((dm ++ rest) !! n = Some 104%Z) in H0.
  rewrite lookup_app_l in H0 by lia.
  apply list_elem_of_lookup_2 in H0.
  rewrite Forall_forall in Hdm. apply Hdm in H0. exact (not_HEXDIGIT_h H0).
Qed.

Lemma substitute_app_token_fuel tbl t post n :
  Grammar.token t → ∀ pre, length pre ≤ n →
  substitute tbl (pre ++ t ++ post)
    = substitute tbl pre ++ repl tbl t ++ substitute tbl post.
Proof.
  intros Ht. induction n as [|n IH]; intros pre Hn.
  - destruct pre; [|cbn in Hn; lia]. cbn [app]. rewrite substitute_nil. cbn [app].
    apply substitute_match, hash_pattern_match_Some. auto.
  - destruct pre as [|c p].
    { cbn [app]. rewrite substitute_nil. cbn [app].
      apply substitute_match, hash_pattern_match_Some. auto. }
    destruct (Re.hash_pattern_match ((c :: p) ++ t ++ post)) as [[m rest]|] eqn:Hm.
    + rewrite (substitute_match _ _ _ _ Hm).
      apply hash_pattern_match_Some in Hm as [Htm Heq].
      pose proof (token_no_overlap m t (c :: p) rest post Htm Ht ltac:(discriminate) Heq) as Hlen.
      pose proof (token_length _ Htm) as Hl13.
      assert (c :: p = m ++ drop 13 (c :: p)) as Hsplit.
      { rewrite <- (take_drop 13 (c :: p)) at 1. f_equal.
        rewrite <- (take_app_le (c :: p) (t ++ post) 13) by exact Hlen.
        rewrite Heq. apply take_app_length'. symmetry. exact Hl13. }
      assert (rest = drop 13 (c :: p) ++ t ++ post) as ->.
      { rewrite Hsplit, <- app_assoc in Heq at 1. apply app_inv_head in Heq. auto. }
      rewrite (substitute_match tbl (c :: p) m (drop 13 (c :: p)))
        by (apply hash_pattern_match_Some; auto).
      rewrite <- app_assoc. f_equal. apply IH.
      rewrite length_drop. cbn [length] in *. lia.
    + assert (Re.hash_pattern_match (c :: p) = None) as Hm'.
      { destruct (Re.hash_pattern_match (c :: p)) as [[m r]|] eqn:Hp; [|reflexivity].
        apply hash_pattern_match_Some in Hp as [Htm Hp].
        assert (Re.hash_pattern_match ((c :: p) ++ t ++ post) = Some (m, r ++ t ++ post)) as Hs.
        { apply hash_pattern_match_Some. split; [exact Htm|].
          rewrite Hp, <- app_assoc. reflexivity. }
        congruence. }
      cbn [app] in Hm |- *.
      rewrite (substitute_nomatch _ _ _ Hm), (substitute_nomatch _ _ _ Hm').
      cbn [app]. f_equal. apply IH. cbn [length] in Hn. lia.
Qed.

(** Around any token of the content the substitution works piecewise. *)
Lemma substitute_app_token tbl pre t post :
  Grammar.token t →
  substitute tbl (pre ++ t ++ post)
    = substitute tbl pre ++ repl tbl t ++ substitute tbl post.
Proof. intros Ht. apply (substitute_app_token_fuel tbl t post (length pre)); auto. Qed.

(** ** Text without tokens *)

Lemma hash_pattern_search_None content :
  Re.hash_pattern_search content = None ↔
  ∀ pre t post, content = pre ++ t ++ post → ¬ Grammar.token t.
Proof.
  induction content as [|c s IH]; cbn [Re.hash_pattern_search].
  - split; [|reflexivity]. intros _ pre t post Heq Ht.
    apply token_length in Ht. apply (f_equal length) in Heq.
    rewrite !length_app in Heq. cbn in Heq. lia.
  - destruct (Re.hash_pattern_match (c :: s)) as [[m rest]|] eqn:Hm.
    + split; [discriminate|]. intros Hno.
      apply hash_pattern_match_Some in Hm as [Ht Heq].
      destruct (Hno [] m rest Heq Ht).
    + rewrite IH. split.
      * intros Hno [|c' pre] t post Heq Ht.
        -- apply hash_pattern_match_None in Hm. apply Hm. exists t, post. auto.
        -- injection Heq as -> ->. exact (Hno pre t post eq_refl Ht).
      * intros Hno pre t post ->. apply (Hno (c :: pre) t post). reflexivity.
Qed.

Lemma substitute_no_token tbl content :
  Re.hash_pattern_search content = None → substitute tbl content = content.
Proof.
  induction content as [|c s IH]; [reflexivity|].
  cbn [Re.hash_pattern_search].
  destruct (Re.hash_pattern_match (c :: s)) as [[m rest]|] eqn:Hm; [discriminate|].
  intros Hs. rewrite (substitute_nomatch _ _ _ Hm), (IH Hs). reflexivity.
Qed.

(** C10: on a content in which the token pattern has no match, the
    substitution returns the content as it is and [changed] is false, for
    every table. *)
Theorem substitute_idempotent_no_token (tbl : table) (content : str) :
  Re.hash_pattern_search content = None →
  substitute tbl content = content
  ∧ changed content (substitute tbl content) = false.
Proof.
  intros Hs. rewrite (substitute_no_token tbl content Hs).
  split; [reflexivity|]. unfold changed. apply bool_decide_eq_false. auto.
Qed.

Lemma substitute_idempotent_no_token_witness :
  let tbl := nametable_of_lines ascii_lower [lit "Player_Ped"] in
  let content := lit "<Item>Player_Ped</Item> hash_12 Hash_0123ABCD" in
  substitute tbl content = content
  ∧ changed content (substitute tbl content) = false.
Proof.
  cbv zeta. apply substitute_idempotent_no_token. vm_compute. reflexivity.
Defined.

(** C7: a text that matches the pattern and has a lower-case hexadecimal
    digit is not a key of any table made from source lines, so wherever it
    stands in a content it is kept as it is. *)
Theorem lowercase_token_kept (lower : str → str) (lines : list str) (t : str) :
  Re.hash_pattern_match t = Some (t, []) →
  (∃ c, c ∈ drop 5 t ∧ (97 ≤ c ≤ 102)%Z) →
  nametable_of_lines lower lines !! t = None
  ∧ ∀ pre post,
      substitute (nametable_of_lines lower lines) (pre ++ t ++ post)
      = substitute (nametable_of_lines lower lines) pre ++ t
          ++ substitute (nametable_of_lines lower lines) post.
Proof.
  intros Hm (c & Hc & Hlow).
  apply hash_pattern_match_Some in Hm as [Ht _].
  assert (nametable_of_lines lower lines !! t = None) as Hnone.
  { destruct (nametable_of_lines lower lines !! t) as [name|] eqn:Hl; [|reflexivity].
    apply nametable_of_lines_lookup in Hl as (i & line & _ & _ & _ & -> & _).
    destruct (joaat_hash_token lower (Py.strip line)) as [_ Hup].
    rewrite Forall_forall in Hup. apply Hup, upper_at_most_F in Hc. lia. }
  split; [exact Hnone|]. intros pre post.
  rewrite substitute_app_token by exact Ht.
  rewrite (repl_unknown _ _ Hnone). reflexivity.
Qed.

Lemma lowercase_token_kept_witness :
  let tbl := nametable_of_lines ascii_lower [lit "a"] in
  tbl !! lit "hash_CA2E9442" = Some (lit "a")
  ∧ tbl !! lit "hash_ca2e9442" = None
  ∧ substitute tbl (lit "<x>" ++ lit "hash_ca2e9442" ++ lit "</x>")
    = lit "<x>" ++ lit "hash_ca2e9442" ++ lit "</x>".
Proof.
  cbv zeta. split; [vm_compute; reflexivity|].
  destruct (lowercase_token_kept ascii_lower [lit "a"] (lit "hash_ca2e9442"))
    as [Hnone Hctx].
  - vm_compute. reflexivity.
  - exists 99%Z. split; [apply (bool_decide_unpack _); vm_compute; exact I|lia].
  - split; [exact Hnone|]. rewrite Hctx. vm_compute. reflexivity.
Defined.

(** ** Malformed near-matches *)

Lemma substitute_short tbl s : length s < 13 → substitute tbl s = s.
Proof.
  induction s as [|c s IH]; intros Hl; [reflexivity|].
  rewrite substitute_nomatch by (apply hash_pattern_match_short; exact Hl).
  rewrite IH by (cbn [length] in Hl; lia). reflexivity.
Qed.

Lemma substitute_13_nomatch tbl s :
  length s = 13 → Re.hash_pattern_match s = None → substitute tbl s = s.
Proof.
  intros Hl Hm. destruct s as [|c s]; [reflexivity|].
  rewrite (substitute_nomatch _ _ _ Hm).
  rewrite substitute_short by (cbn [length] in Hl; lia). reflexivity.
Qed.

Lemma token_at_inv s :
  Grammar.token_at s →
  ∃ dm rest, s = lit "hash_" ++ dm ++ rest ∧ length dm = 8 ∧ Forall Grammar.HEXDIGIT dm.
Proof.
  intros (t & rest & (dm & -> & Hl & Hd) & ->). exists dm, rest.
  rewrite <- app_assoc. auto.
Qed.

Lemma hash_pattern_match_tag s :
  Re.hash_pattern_match s ≠ None → take 5 s = lit "hash_".
Proof.
  intros Hm. destruct (Re.hash_pattern_match s) as [[m rest]|] eqn:Heq; [|congruence].
  apply hash_pattern_match_Some in Heq as [(dm & -> & _) ->].
  rewrite <- !app_assoc. reflexivity.
Qed.

Lemma no_match_head c s : c ≠ 104%Z → Re.hash_pattern_match (c :: s) = None.
Proof.
  intros Hc. destruct (Re.hash_pattern_match (c :: s)) eqn:Hm; [|reflexivity].
  assert (take 5 (c :: s) = lit "hash_") as Ht
    by (apply hash_pattern_match_tag; congruence).
  change (lit "hash_") with [104; 97; 115; 104; 95]%Z in Ht.
  cbn [take] in Ht. injection Ht as Hc0 _. congruence.
Qed.

Lemma no_match_second c c' s : c' ≠ 97%Z → Re.hash_pattern_match (c :: c' :: s) = None.
Proof.
  intros Hc. destruct (Re.hash_pattern_match (c :: c' :: s)) eqn:Hm; [|reflexivity].
  assert (take 5 (c :: c' :: s) = lit "hash_") as Ht
    by (apply hash_pattern_match_tag; congruence).
  change (lit "hash_") with [104; 97; 115; 104; 95]%Z in Ht.
  cbn [take] in Ht. injection Ht as _ Hc1 _. congruence.
Qed.

(** Where no match begins along [a], the scan copies [a]. *)
Lemma substitute_copy tbl a : ∀ post,
  (∀ j, j < length a → Re.hash_pattern_match (drop j (a ++ post)) = None) →
  substitute tbl (a ++ post) = a ++ substitute tbl post.
Proof.
  induction a as [|c a IH]; intros post Hno; [reflexivity|].
  cbn [app]. rewrite substitute_nomatch by (apply (Hno 0); cbn; lia).
  rewrite IH; [reflexivity|].
  intros j Hj. apply (Hno (S j)). cbn [length]. lia.
Qed.

Lemma substitute_hex_run tbl ds post :
  Forall Grammar.HEXDIGIT ds → substitute tbl (ds ++ post) = ds ++ substitute tbl post.
Proof.
  induction 1 as [|d ds Hd _ IH]; [reflexivity|].
  cbn [app]. rewrite substitute_nomatch, IH; [reflexivity|].
  apply no_match_head. intros ->. exact (not_HEXDIGIT_h Hd).
Qed.

(** The letters of a tag that reads [hash_] when lower-cased. *)
Lemma tag_variant_chars tag :
  ascii_lower tag = lit "hash_" →
  ∃ t0 t1 t2 t3,
    tag = [t0; t1; t2; t3; 95%Z]
    ∧ (t0 = 104 ∨ t0 = 72)%Z ∧ (t1 = 97 ∨ t1 = 65)%Z
    ∧ (t2 = 115 ∨ t2 = 83)%Z ∧ (t3 = 104 ∨ t3 = 72)%Z.
Proof.
  intros H. destruct tag as [|t0 [|t1 [|t2 [|t3 [|t4 [|t5 tag]]]]]]; try discriminate H.
  change (lit "hash_") with [104; 97; 115; 104; 95]%Z in H.
  injection H as H0 H1 H2 H3 H4. exists t0, t1, t2, t3.
  unfold ascii_lower_char in *.
  assert (t4 = 95%Z) as ->.
  { destruct ((65 <=? t4)%Z && (t4 <=? 90)%Z) eqn:E; [|exact H4].
    apply andb_true_iff in E as [E1 E2]. lia. }
  split; [reflexivity|].
  repeat split;
    match goal with
    | |- (?t = _ ∨ ?t = _)%Z =>
        destruct ((65 <=? t)%Z && (t <=? 90)%Z); lia
    end.
Qed.

(** A match that begins before a tag, in whatever letter case, ends before
    it. *)
Lemma token_no_straddle m pre c0 c1 u rest :
  Grammar.token m → pre ≠ [] →
  (c0 = 104 ∨ c0 = 72)%Z → (c1 = 97 ∨ c1 = 65)%Z →
  pre ++ c0 :: c1 :: u = m ++ rest → 13 ≤ length pre.
Proof.
  intros (dm & -> & Hlm & Hdm) Hpre H0 H1 Heq.
  destruct (decide (13 ≤ length pre)) as [|Hshort]; [assumption|exfalso].
  assert (0 < length pre) as Hpos by (destruct pre; [congruence|cbn; lia]).
  assert (((lit "hash_" ++ dm) ++ rest) !! length pre = Some c0) as L0.
  { rewrite <- Heq, lookup_app_r, Nat.sub_diag by lia. reflexivity. }
  assert (((lit "hash_" ++ dm) ++ rest) !! S (length pre) = Some c1) as L1.
  { rewrite <- Heq, lookup_app_r by lia.
    replace (S (length pre) - length pre) with 1 by lia. reflexivity. }
  change (lit "hash_") with [104; 97; 115; 104; 95]%Z in L0, L1.
  destruct (length pre) as [|[|[|[|[|n]]]]]; cbn in L0, L1; try lia;
    try (injection L0 as <-; lia); try (injection L1 as <-; lia).
  change ((dm ++ rest) !! n = Some c0) in L0.
  rewrite lookup_app_l in L0 by lia.
  apply list_elem_of_lookup_2 in L0.
  rewrite Forall_forall in Hdm. apply Hdm, hex_class_HEXDIGIT in L0.
  destruct H0 as [-> | ->]; discriminate L0.
Qed.

Lemma substitute_app_tag_fuel tbl c0 c1 u n :
  (c0 = 104 ∨ c0 = 72)%Z → (c1 = 97 ∨ c1 = 65)%Z →
  ∀ pre, length pre ≤ n →
  substitute tbl (pre ++ c0 :: c1 :: u)
    = substitute tbl pre ++ substitute tbl (c0 :: c1 :: u).
Proof.
  intros H0 H1. induction n as [|n IH]; intros pre Hn.
  - destruct pre; [reflexivity|cbn in Hn; lia].
  - destruct pre as [|c p]; [reflexivity|].
    destruct (Re.hash_pattern_match ((c :: p) ++ c0 :: c1 :: u)) as [[m rest]|] eqn:Hm.
    + rewrite (substitute_match _ _ _ _ Hm).
      apply hash_pattern_match_Some in Hm as [Htm Heq].
      pose proof (token_no_straddle m (c :: p) c0 c1 u rest Htm
                    ltac:(discriminate) H0 H1 Heq) as Hlen.
      pose proof (token_length _ Htm) as Hl13.
      assert (c :: p = m ++ drop 13 (c :: p)) as Hsplit.
      { rewrite <- (take_drop 13 (c :: p)) at 1. f_equal.
        rewrite <- (take_app_le (c :: p) (c0 :: c1 :: u) 13) by exact Hlen.
        rewrite Heq. apply take_app_length'. symmetry. exact Hl13. }
      assert (rest = drop 13 (c :: p) ++ c0 :: c1 :: u) as ->.
      { rewrite Hsplit, <- app_assoc in Heq at 1. apply app_inv_head in Heq. auto. }
      rewrite (substitute_match tbl (c :: p) m (drop 13 (c :: p)))
        by (apply hash_pattern_match_Some; auto).
      rewrite <- app_assoc. f_equal. apply IH.
      rewrite length_drop. cbn [length] in *. lia.
    + assert (Re.hash_pattern_match (c :: p) = None) as Hm'.
      { destruct (Re.hash_pattern_match (c :: p)) as [[m r]|] eqn:Hp; [|reflexivity].
        apply hash_pattern_match_Some in Hp as [Htm Hp].
        assert (Re.hash_pattern_match ((c :: p) ++ c0 :: c1 :: u)
                = Some (m, r ++ c0 :: c1 :: u)) as Hs.
        { apply hash_pattern_match_Some. split; [exact Htm|].
          rewrite Hp, <- app_assoc. reflexivity. }
        congruence. }
      cbn [app] in Hm |- *.
      rewrite (substitute_nomatch _ _ _ Hm), (substitute_nomatch _ _ _ Hm').
      cbn [app]. f_equal. apply IH. cbn [length] in Hn. lia.
Qed.

(** Before a tag, in whatever letter case, the substitution works on its
    own. *)
Lemma substitute_app_tag tbl pre tag u :
  ascii_lower tag = lit "hash_" →
  substitute tbl (pre ++ tag ++ u) = substitute tbl pre ++ substitute tbl (tag ++ u).
Proof.
  intros Htag.
  destruct (tag_variant_chars tag Htag) as (t0 & t1 & t2 & t3 & -> & H0 & H1 & _).
  cbn [app]. apply (substitute_app_tag_fuel tbl t0 t1 _ (length pre)); auto.
Qed.

(** A tag and the hexadecimal digits after it are copied when no match
    begins at the tag. *)
Lemma substitute_tag_digits tbl tag ds post :
  ascii_lower tag = lit "hash_" → Forall Grammar.HEXDIGIT ds →
  Re.hash_pattern_match (tag ++ ds ++ post) = None →
  substitute tbl (tag ++ ds ++ post) = tag ++ ds ++ substitute tbl post.
Proof.
  intros Htag Hds Hno.
  destruct (tag_variant_chars tag Htag) as (t0 & t1 & t2 & t3 & -> & H0 & H1 & H2 & H3).
  cbn [app] in *.
  rewrite (substitute_nomatch _ _ _ Hno).
  rewrite substitute_nomatch by (apply no_match_head; lia).
  rewrite substitute_nomatch by (apply no_match_head; lia).
  rewrite substitute_nomatch
    by (destruct H3 as [-> | ->];
        [destruct ds; apply no_match_second; discriminate
        |apply no_match_head; discriminate]).
  rewrite substitute_nomatch by (apply no_match_head; discriminate).
  rewrite substitute_hex_run by exact Hds. reflexivity.
Qed.

Lemma no_match_few_digits ds post :
  length ds < 8 → (∀ c post', post = c :: post' → ¬ Grammar.HEXDIGIT c) →
  Re.hash_pattern_match (lit "hash_" ++ ds ++ post) = None.
Proof.
  intros Hl Hnext. apply hash_pattern_match_None. intros Hat.
  apply token_at_inv in Hat as (dm & rest & Heq & Hlm & Hdm).
  apply app_inv_head in Heq.
  assert ((dm ++ rest) !! length ds = post !! 0) as Hk.
  { rewrite <- Heq, lookup_app_r, Nat.sub_diag by lia. reflexivity. }
  rewrite lookup_app_l in Hk by lia.
  destruct (lookup_lt_is_Some_2 dm (length ds) ltac:(lia)) as [c Hc].
  rewrite Hc in Hk. destruct post as [|c' post']; [discriminate Hk|].
  injection Hk as <-. apply (Hnext c post' eq_refl).
  rewrite Forall_forall in Hdm. apply Hdm.
  eapply list_elem_of_lookup_2. exact Hc.
Qed.

Lemma no_match_wrong_digit cs post :
  length cs = 8 → ¬ Forall Grammar.HEXDIGIT cs →
  Re.hash_pattern_match (lit "hash_" ++ cs ++ post) = None.
Proof.
  intros Hl Hbad. apply hash_pattern_match_None. intros Hat.
  apply token_at_inv in Hat as (dm & rest & Heq & Hlm & Hdm).
  apply app_inv_head in Heq. apply app_inj_1 in Heq as [-> _]; [|lia].
  exact (Hbad Hdm).
Qed.

Lemma no_match_wrong_tag tag u :
  length tag = 5 → tag ≠ lit "hash_" → Re.hash_pattern_match (tag ++ u) = None.
Proof.
  intros Hl Hne. destruct (Re.hash_pattern_match (tag ++ u)) eqn:Hm; [|reflexivity].
  assert (take 5 (tag ++ u) = lit "hash_") as Ht
    by (apply hash_pattern_match_tag; congruence).
  rewrite take_app_length' in Ht by (symmetry; exact Hl). contradiction.
Qed.

(** C6, amended: in every content, before and after whatever text,
    [hash_] followed by fewer than eight hexadecimal digits and then a
    character that is not one, or the end, is kept as it is; so is a tag
    that reads [hash_] in another letter case, with the hexadecimal digits
    after it.  At [hash_] followed by eight characters one of which is not
    a hexadecimal digit no match begins and the tag is kept; the eight
    characters are kept too when no match begins among them.  At [hash_]
    followed by more than eight hexadecimal digits the first thirteen
    characters are matched and replaced by [repl], and the remaining digits
    are kept. *)
Theorem malformed_near_matches (tbl : table) (pre post : str) :
  (∀ ds, Forall Grammar.HEXDIGIT ds → length ds < 8 →
     (∀ c post', post = c :: post' → ¬ Grammar.HEXDIGIT c) →
     Re.hash_pattern_match (lit "hash_" ++ ds ++ post) = None
     ∧ substitute tbl (pre ++ lit "hash_" ++ ds ++ post)
       = substitute tbl pre ++ lit "hash_" ++ ds ++ substitute tbl post)
  ∧ (∀ cs, length cs = 8 → ¬ Forall Grammar.HEXDIGIT cs →
     Re.hash_pattern_match (lit "hash_" ++ cs ++ post) = None
     ∧ substitute tbl (pre ++ lit "hash_" ++ cs ++ post)
       = substitute tbl pre ++ lit "hash_" ++ substitute tbl (cs ++ post)
     ∧ ((∀ j, j < 8 → Re.hash_pattern_match (drop j (cs ++ post)) = None) →
        substitute tbl (pre ++ lit "hash_" ++ cs ++ post)
        = substitute tbl pre ++ lit "hash_" ++ cs ++ substitute tbl post))
  ∧ (∀ tag ds, ascii_lower tag = lit "hash_" → tag ≠ lit "hash_" →
     Forall Grammar.HEXDIGIT ds →
     Re.hash_pattern_match (tag ++ ds ++ post) = None
     ∧ substitute tbl (pre ++ tag ++ ds ++ post)
       = substitute tbl pre ++ tag ++ ds ++ substitute tbl post)
  ∧ (∀ ds, Forall Grammar.HEXDIGIT ds → 8 < length ds →
     Re.hash_pattern_match (lit "hash_" ++ ds ++ post)
       = Some (lit "hash_" ++ take 8 ds, drop 8 ds ++ post)
     ∧ substitute tbl (pre ++ lit "hash_" ++ ds ++ post)
       = substitute tbl pre ++ repl tbl (lit "hash_" ++ take 8 ds)
           ++ drop 8 ds ++ substitute tbl post).
Proof.
  split; [|split; [|split]].
  - intros ds Hds Hl Hnext.
    pose proof (no_match_few_digits ds post Hl Hnext) as Hno.
    split; [exact Hno|].
    rewrite substitute_app_tag by reflexivity.
    rewrite substitute_tag_digits by (reflexivity || assumption). reflexivity.
  - intros cs Hl Hbad.
    pose proof (no_match_wrong_digit cs post Hl Hbad) as Hno.
    assert (substitute tbl (pre ++ lit "hash_" ++ cs ++ post)
            = substitute tbl pre ++ lit "hash_" ++ substitute tbl (cs ++ post)) as Htag.
    { rewrite substitute_app_tag by reflexivity.
      pose proof (substitute_tag_digits tbl (lit "hash_") [] (cs ++ post)
                    eq_refl (Forall_nil_2 _) Hno) as Hc.
      change ([] ++ cs ++ post) with (cs ++ post) in Hc. rewrite Hc.
      reflexivity. }
    split; [exact Hno|]. split; [exact Htag|].
    intros Hin. rewrite Htag. rewrite substitute_copy; [reflexivity|].
    rewrite Hl. exact Hin.
  - intros tag ds Htag Hne Hds.
    assert (Re.hash_pattern_match (tag ++ ds ++ post) = None) as Hno.
    { apply no_match_wrong_tag; [|exact Hne].
      apply (f_equal length) in Htag. unfold ascii_lower in Htag.
      rewrite length_fmap in Htag. exact Htag. }
    split; [exact Hno|].
    rewrite substitute_app_tag by exact Htag.
    rewrite substitute_tag_digits by assumption. reflexivity.
  - intros ds Hd Hl.
    assert (Re.hash_pattern_match (lit "hash_" ++ ds ++ post)
            = Some (lit "hash_" ++ take 8 ds, drop 8 ds ++ post)) as Hm.
    { apply hash_pattern_match_Some. split.
      - exists (take 8 ds). split; [reflexivity|].
        split; [apply length_take_le; lia|apply Forall_take; exact Hd].
      - rewrite <- (take_drop 8 ds) at 1. rewrite <- !app_assoc. reflexivity. }
    split; [exact Hm|].
    rewrite substitute_app_tag by reflexivity.
    rewrite (substitute_match _ _ _ _ Hm).
    rewrite substitute_hex_run by (apply Forall_drop; exact Hd). reflexivity.
Qed.

Lemma malformed_near_matches_witness :
  let tbl := nametable_of_lines ascii_lower [lit "a"] in
  substitute tbl (lit "hash_CA2E9442 " ++ lit "hash_" ++ lit "CA2E944" ++ lit "<hash_CA2E9442")
  = lit "a " ++ lit "hash_" ++ lit "CA2E944" ++ lit "<a"
  ∧ substitute tbl (lit "hash_CA2E9442 " ++ lit "hash_" ++ lit "CA2E944G" ++ lit "2hash_CA2E9442")
    = lit "a " ++ lit "hash_" ++ lit "CA2E944G" ++ lit "2a"
  ∧ substitute tbl (lit "hash_CA2E9442" ++ lit "Hash_" ++ lit "CA2E9442" ++ lit "2hash_CA2E9442")
    = lit "a" ++ lit "Hash_" ++ lit "CA2E9442" ++ lit "2a"
  ∧ substitute tbl (lit "<x>" ++ lit "hash_" ++ lit "CA2E94421" ++ lit "</x>")
    = lit "<x>" ++ lit "a" ++ lit "1" ++ lit "</x>".
Proof.
  cbv zeta. split; [|split; [|split]].
  - destruct (malformed_near_matches (nametable_of_lines ascii_lower [lit "a"])
                (lit "hash_CA2E9442 ") (lit "<hash_CA2E9442")) as (Hfew & _).
    refine (eq_trans (proj2 (Hfew (lit "CA2E944") _ _ _)) _).
    + apply forallb_hex_class. reflexivity.
    + vm_compute. lia.
    + intros c post' [= <- <-] H. apply hex_class_HEXDIGIT in H. discriminate H.
    + vm_compute. reflexivity.
  - destruct (malformed_near_matches (nametable_of_lines ascii_lower [lit "a"])
                (lit "hash_CA2E9442 ") (lit "2hash_CA2E9442")) as (_ & Hbad & _).
    refine (eq_trans (proj2 (proj2 (Hbad (lit "CA2E944G") _ _)) _) _).
    + reflexivity.
    + intros H. apply forallb_hex_class in H. vm_compute in H. discriminate H.
    + intros j Hj.
      do 8 (destruct j as [|j]; [vm_compute; reflexivity|]). lia.
    + vm_compute. reflexivity.
  - destruct (malformed_near_matches (nametable_of_lines ascii_lower [lit "a"])
                (lit "hash_CA2E9442") (lit "2hash_CA2E9442")) as (_ & _ & Htag & _).
    refine (eq_trans (proj2 (Htag (lit "Hash_") (lit "CA2E9442") _ _ _)) _).
    + reflexivity.
    + vm_compute. discriminate.
    + apply forallb_hex_class. reflexivity.
    + vm_compute. reflexivity.
  - destruct (malformed_near_matches (nametable_of_lines ascii_lower [lit "a"])
                (lit "<x>") (lit "</x>")) as (_ & _ & _ & Hmany).
    refine (eq_trans (proj2 (Hmany (lit "CA2E94421") _ _)) _).
    + apply forallb_hex_class. reflexivity.
    + vm_compute. lia.
    + vm_compute. reflexivity.
Defined.

(** C6 as stated fails for more than eight digits: in [hash_CA2E94421] the
    first thirteen characters are the token of [a] and are replaced.  It
    also fails for [hash_] followed by the eight characters [Ghash_CA], one
    of them not hexadecimal, when the token [hash_CA2E9442] that begins
    among them runs on into the text after them. *)
Lemma malformed_near_matches_counterexample :
  let tbl := nametable_of_lines ascii_lower [lit "a"] in
  let near := lit "hash_" ++ lit "CA2E94421" in
  (Forall Grammar.HEXDIGIT (lit "CA2E94421") ∧ length (lit "CA2E94421") = 9
   ∧ substitute tbl near = lit "a1"
   ∧ substitute tbl near ≠ near)
  ∧ (length (lit "Ghash_CA") = 8 ∧ ¬ Forall Grammar.HEXDIGIT (lit "Ghash_CA")
     ∧ substitute tbl (lit "hash_" ++ lit "Ghash_CA" ++ lit "2E9442") = lit "hash_Ga"
     ∧ take 13 (substitute tbl (lit "hash_" ++ lit "Ghash_CA" ++ lit "2E9442"))
       ≠ lit "hash_" ++ lit "Ghash_CA").
Proof.
  cbv zeta. split.
  - split; [apply forallb_hex_class; reflexivity|].
    split; [reflexivity|]. split; [vm_compute; reflexivity|].
    vm_compute. discriminate.
  - split; [reflexivity|]. split.
    + intros H. apply forallb_hex_class in H. vm_compute in H. discriminate H.
    + split; [vm_compute; reflexivity|]. vm_compute. discriminate.
Qed.

(** ** One file *)

Lemma process_xml_file_missing p σ :
  files σ !! p = None →
  process_xml_file p σ =
    (Raise (FileNotFoundError p),
     State (nametable σ) (files σ) (readonly σ)
       (trace σ ++ [LogError (ErrorProcessing p (FileNotFoundError p))])).
Proof. intros Hf. run_file Hf. reflexivity. Qed.

Lemma process_xml_file_undecodable p σ :
  files σ !! p = Some Undecodable →
  process_xml_file p σ =
    (Raise (UnicodeDecodeError p),
     State (nametable σ) (files σ) (readonly σ)
       (trace σ ++ [LogError (ErrorProcessing p (UnicodeDecodeError p))])).
Proof. intros Hf. run_file Hf. reflexivity. Qed.

Lemma process_xml_file_unchanged p σ raw :
  files σ !! p = Some (Text raw) →
  substitute (nametable σ) (Io.universal_newlines raw) = Io.universal_newlines raw →
  process_xml_file p σ =
    (Ok tt,
     State (nametable σ) (files σ) (readonly σ)
       (trace σ ++ [Read p; LogInfo (NoChangesNeeded p)])).
Proof.
  intros Hf Hsame. run_file Hf. rewrite Hsame. unfold changed.
  rewrite bool_decide_false by auto.
  unfold emit. cbn [nametable files readonly trace].
  rewrite <- app_assoc. reflexivity.
Qed.

Lemma process_xml_file_written p σ raw :
  files σ !! p = Some (Text raw) →
  substitute (nametable σ) (Io.universal_newlines raw) ≠ Io.universal_newlines raw →
  p ∉ readonly σ →
  process_xml_file p σ =
    (Ok tt,
     State (nametable σ)
       (<[p := Text (substitute (nametable σ) (Io.universal_newlines raw))]> (files σ))
       (readonly σ)
       (trace σ ++ [Read p;
                    Written p (substitute (nametable σ) (Io.universal_newlines raw));
                    LogInfo (Processed p)])).
Proof.
  intros Hf Hdiff Hw. run_file Hf. unfold changed.
  rewrite bool_decide_true by exact Hdiff.
  unfold Io.write_text, emit. cbn [nametable files readonly trace].
  rewrite bool_decide_false by exact Hw. cbn [nametable files readonly trace].
  rewrite <- !app_assoc. reflexivity.
Qed.

Lemma process_xml_file_readonly p σ raw :
  files σ !! p = Some (Text raw) →
  substitute (nametable σ) (Io.universal_newlines raw) ≠ Io.universal_newlines raw →
  p ∈ readonly σ →
  process_xml_file p σ =
    (Raise (PermissionError p),
     State (nametable σ) (files σ) (readonly σ)
       (trace σ ++ [Read p; LogError (ErrorProcessing p (PermissionError p))])).
Proof.
  intros Hf Hdiff Hw. run_file Hf. unfold changed.
  rewrite bool_decide_true by exact Hdiff.
  unfold Io.write_text, emit. cbn [nametable files readonly trace].
  rewrite bool_decide_true by exact Hw. cbn [nametable files readonly trace].
  rewrite <- !app_assoc. reflexivity.
Qed.

(** C9: for a readable target file, the file is written back when the new
    content differs from the content read, and only then: when they are
    equal nothing is written and the files are as before. *)
Theorem conditional_write (xml_file : path) (σ : state) (raw : str) :
  files σ !! xml_file = Some (Text raw) →
  let content := Io.universal_newlines raw in
  let new_content := substitute (nametable σ) content in
  (new_content = content →
     process_xml_file xml_file σ =
       (Ok tt, State (nametable σ) (files σ) (readonly σ)
                 (trace σ ++ [Read xml_file; LogInfo (NoChangesNeeded xml_file)])))
  ∧ (new_content ≠ content →
     process_xml_file xml_file σ =
       if bool_decide (xml_file ∈ readonly σ)
       then (Raise (PermissionError xml_file),
             State (nametable σ) (files σ) (readonly σ)
               (trace σ ++ [Read xml_file;
                            LogError (ErrorProcessing xml_file
                                        (PermissionError xml_file))]))
       else (Ok tt,
             State (nametable σ) (<[xml_file := Text new_content]> (files σ))
               (readonly σ)
               (trace σ ++ [Read xml_file; Written xml_file new_content;
                            LogInfo (Processed xml_file)])))
  ∧ (∀ s, Written xml_file s ∈ trace (process_xml_file xml_file σ).2 →
          Written xml_file s ∉ trace σ →
          s = new_content ∧ new_content ≠ content).
Proof.
  intros Hf content new_content. split; [|split].
  - apply process_xml_file_unchanged. exact Hf.
  - intros Hdiff. case_bool_decide as Hro.
    + apply (process_xml_file_readonly _ _ _ Hf Hdiff Hro).
    + apply (process_xml_file_written _ _ _ Hf Hdiff Hro).
  - intros s Hin Hold.
    destruct (decide (new_content = content)) as [Hsame|Hdiff].
    + rewrite (process_xml_file_unchanged _ _ _ Hf Hsame) in Hin.
      cbn [snd trace] in Hin. apply elem_of_app in Hin as [Hin|Hin]; [tauto|].
      repeat (apply elem_of_cons in Hin as [Hin|Hin]; [discriminate Hin|]).
      inversion Hin.
    + destruct (decide (xml_file ∈ readonly σ)) as [Hro|Hw].
      * rewrite (process_xml_file_readonly _ _ _ Hf Hdiff Hro) in Hin.
        cbn [snd trace] in Hin. apply elem_of_app in Hin as [Hin|Hin]; [tauto|].
        repeat (apply elem_of_cons in Hin as [Hin|Hin]; [discriminate Hin|]).
        inversion Hin.
      * rewrite (process_xml_file_written _ _ _ Hf Hdiff Hw) in Hin.
        cbn [snd trace] in Hin. apply elem_of_app in Hin as [Hin|Hin]; [tauto|].
        apply elem_of_cons in Hin as [Hin|Hin]; [discriminate Hin|].
        apply elem_of_cons in Hin as [Hin|Hin]; [injection Hin as ->; auto|].
        apply elem_of_cons in Hin as [Hin|Hin]; [discriminate Hin|].
        inversion Hin.
Qed.

Lemma conditional_write_witness :
  process_xml_file "a.xml" sample_loaded =
    (Ok tt, State (nametable sample_loaded)
              (<["a.xml" := Text (lit "<x>a</x>")]> sample_files) ∅
              [Read "a.xml"; Written "a.xml" (lit "<x>a</x>");
               LogInfo (Processed "a.xml")])
  ∧ process_xml_file "b.xml" sample_loaded =
    (Ok tt, State (nametable sample_loaded) sample_files ∅
              [Read "b.xml"; LogInfo (NoChangesNeeded "b.xml")]).
Proof.
  split.
  - apply (proj1 (proj2 (conditional_write "a.xml" sample_loaded
                           (lit "<x>hash_CA2E9442</x>") eq_refl))).
    vm_compute. discriminate.
  - apply (proj1 (conditional_write "b.xml" sample_loaded
                    (lit "<x>hash_00000000</x>") eq_refl)).
    vm_compute. reflexivity.
Defined.

(** ** Loading the table *)

Lemma load_nametable_unreadable lower filepath σ :
  files σ !! filepath = None ∨ files σ !! filepath = Some Undecodable →
  load_nametable lower filepath σ =
    (Raise (read_error filepath (files σ !! filepath)),
     State (nametable σ) (files σ) (readonly σ)
       (trace σ ++ [LogError (ErrorLoadingNametable
                                (read_error filepath (files σ !! filepath)))])).
Proof.
  intros [Hf|Hf];
    unfold load_nametable, try_except, mbind, M_bind, bind, Io.read_text;
    rewrite Hf; reflexivity.
Qed.

(** C8: when the source list cannot be read or decoded, [load_nametable]
    raises the error, and [main] ends with the error shown, the table empty
    and the files as they were, without having read or written any file. *)
Theorem load_failure_aborts (lower : str → str) (started : nat → bool)
    (nametable_path : path) (xml_paths : list path) (σ : state) :
  nametable_path ≠ EmptyString → xml_paths ≠ [] →
  files σ !! nametable_path = None ∨ files σ !! nametable_path = Some Undecodable →
  let e := read_error nametable_path (files σ !! nametable_path) in
  (load_nametable lower nametable_path σ).1 = Raise e
  ∧ main lower started nametable_path xml_paths σ =
      (Ok tt, State ∅ (files σ) (readonly σ)
                (trace σ ++ [LogError (ErrorLoadingNametable e);
                             LogError (AnErrorOccurred e);
                             ShowError e; RootDestroy])).
Proof.
  intros Hp Hx Hf e.
  pose proof (load_nametable_unreadable lower nametable_path σ Hf) as He.
  pose proof (load_nametable_unreadable lower nametable_path
                (State ∅ (files σ) (readonly σ) (trace σ)) Hf) as He'.
  cbn [nametable files readonly trace] in He'.
  split; [rewrite He; reflexivity|].
  unfold main, try_finally, try_except.
  rewrite bool_decide_false by exact Hp. rewrite bool_decide_false by exact Hx.
  unfold mbind at 1, M_bind at 1, bind at 1. unfold set_nametable at 1.
  unfold mbind at 1, M_bind at 1, bind at 1. rewrite He'.
  unfold mbind, M_bind, bind, emit. cbn [nametable files readonly trace].
  rewrite <- !app_assoc. reflexivity.
Qed.

Lemma load_failure_aborts_witness :
  let σ := State ∅ sample_files ∅ [] in
  let e := FileNotFoundError "nonames.txt" in
  (load_nametable ascii_lower "nonames.txt" σ).1 = Raise e
  ∧ main ascii_lower (fun _ => true) "nonames.txt" ["a.xml"; "b.xml"] σ =
      (Ok tt, State ∅ sample_files ∅
                [LogError (ErrorLoadingNametable e);
                 LogError (AnErrorOccurred e); ShowError e; RootDestroy]).
Proof.
  cbv zeta.
  apply (load_failure_aborts ascii_lower (fun _ => true) "nonames.txt"
           ["a.xml"; "b.xml"] (State ∅ sample_files ∅ []));
    [discriminate|discriminate|].
  left. vm_compute. reflexivity.
Defined.

(** ** The batch *)

Lemma run_seq_app ps qs σ : run_seq (ps ++ qs) σ = run_seq qs (run_seq ps σ).
Proof. unfold run_seq. apply fold_left_app. Qed.

Lemma run_calls_after_failure started post : ∀ i e σ,
  run_calls started i (Some e) post σ
    = (Some e, run_seq (started_calls started i post) σ).
Proof.
  induction post as [|p post IH]; intros i e σ; [reflexivity|].
  cbn [run_calls started_calls]. destruct (started i); rewrite IH; reflexivity.
Qed.

Lemma run_calls_ok_prefix started pre : ∀ i rest σ,
  (∀ k q, pre !! k = Some q →
          (process_xml_file q (run_seq (take k pre) σ)).1 = Ok tt) →
  run_calls started i None (pre ++ rest) σ
    = run_calls started (i + length pre) None rest (run_seq pre σ).
Proof.
  induction pre as [|q pre IH]; intros i rest σ Hok.
  - cbn [app length]. rewrite Nat.add_0_r. reflexivity.
  - cbn [app run_calls length].
    pose proof (Hok 0 q eq_refl) as H0. cbn [take] in H0.
    change (run_seq [] σ) with σ in H0.
    destruct (process_xml_file q σ) as [r σ1] eqn:Hq. cbn [fst] in H0. subst r.
    rewrite IH.
    + rewrite Nat.add_succ_r. cbn [Nat.add]. unfold run_seq at 2.
      cbn [fold_left]. rewrite Hq. reflexivity.
    + intros k q' Hk. specialize (Hok (S k) q' Hk). cbn [take] in Hok.
      unfold run_seq in Hok. cbn [fold_left] in Hok. rewrite Hq in Hok. exact Hok.
Qed.

Lemma process_xml_file_frame p q σ :
  q ≠ p → files (process_xml_file p σ).2 !! q = files σ !! q.
Proof.
  intros Hne. destruct (files σ !! p) as [[raw|]|] eqn:Hf.
  - destruct (decide (substitute (nametable σ) (Io.universal_newlines raw)
                      = Io.universal_newlines raw)) as [Hsame|Hdiff].
    + rewrite (process_xml_file_unchanged _ _ _ Hf Hsame). reflexivity.
    + destruct (decide (p ∈ readonly σ)) as [Hro|Hw].
      * rewrite (process_xml_file_readonly _ _ _ Hf Hdiff Hro). reflexivity.
      * rewrite (process_xml_file_written _ _ _ Hf Hdiff Hw). cbn [snd files].
        apply lookup_insert_ne. auto.
  - rewrite (process_xml_file_undecodable _ _ Hf). reflexivity.
  - rewrite (process_xml_file_missing _ _ Hf). reflexivity.
Qed.

Lemma run_seq_frame ps : ∀ σ q, q ∉ ps → files (run_seq ps σ) !! q = files σ !! q.
Proof.
  induction ps as [|p ps IH]; intros σ q Hq; [reflexivity|].
  apply not_elem_of_cons in Hq as [Hne Hq].
  unfold run_seq. cbn [fold_left]. fold (run_seq ps (process_xml_file p σ).2).
  rewrite IH by exact Hq. apply process_xml_file_frame. exact Hne.
Qed.

Lemma process_xml_file_logs p σ :
  ∃ evs, trace (process_xml_file p σ).2 = trace σ ++ evs
       ∧ (LogInfo (Processed p) ∈ evs ∨ LogInfo (NoChangesNeeded p) ∈ evs
          ∨ ∃ e, LogError (ErrorProcessing p e) ∈ evs).
Proof.
  destruct (files σ !! p) as [[raw|]|] eqn:Hf.
  - destruct (decide (substitute (nametable σ) (Io.universal_newlines raw)
                      = Io.universal_newlines raw)) as [Hsame|Hdiff].
    + rewrite (process_xml_file_unchanged _ _ _ Hf Hsame). eexists.
      split; [reflexivity|]. right. left. set_solver.
    + destruct (decide (p ∈ readonly σ)) as [Hro|Hw].
      * rewrite (process_xml_file_readonly _ _ _ Hf Hdiff Hro). eexists.
        split; [reflexivity|]. right. right. eexists. repeat constructor.
      * rewrite (process_xml_file_written _ _ _ Hf Hdiff Hw). eexists.
        split; [reflexivity|]. left. set_solver.
  - rewrite (process_xml_file_undecodable _ _ Hf). eexists.
    split; [reflexivity|]. right. right. eexists. repeat constructor.
  - rewrite (process_xml_file_missing _ _ Hf). eexists.
    split; [reflexivity|]. right. right. eexists. repeat constructor.
Qed.

Lemma outcome_logged_mono p q σ :
  outcome_logged q σ → outcome_logged q (process_xml_file p σ).2.
Proof.
  destruct (process_xml_file_logs p σ) as (evs & Heq & _).
  unfold outcome_logged. rewrite Heq. setoid_rewrite elem_of_app.
  intros [H|[H|[e H]]]; eauto 6.
Qed.

Lemma run_seq_mono ps : ∀ q σ, outcome_logged q σ → outcome_logged q (run_seq ps σ).
Proof.
  induction ps as [|p ps IH]; intros q σ H; [exact H|].
  unfold run_seq. cbn [fold_left]. fold (run_seq ps (process_xml_file p σ).2).
  apply IH, outcome_logged_mono, H.
Qed.

Lemma run_seq_logged ps : ∀ q σ, q ∈ ps → outcome_logged q (run_seq ps σ).
Proof.
  induction ps as [|p ps IH]; intros q σ Hq; [inversion Hq|].
  unfold run_seq. cbn [fold_left]. fold (run_seq ps (process_xml_file p σ).2).
  apply elem_of_cons in Hq as [->|Hq]; [|apply IH, Hq].
  apply run_seq_mono.
  destruct (process_xml_file_logs p σ) as (evs & Heq & H).
  unfold outcome_logged. rewrite Heq. setoid_rewrite elem_of_app.
  destruct H as [H|[H|[e H]]]; eauto 6.
Qed.

Lemma process_files_all_ok started xml_files σ :
  (∀ k q, xml_files !! k = Some q →
          (process_xml_file q (run_seq (take k xml_files) σ)).1 = Ok tt) →
  process_files started xml_files σ = (Ok tt, run_seq xml_files σ).
Proof.
  intros Hok. unfold process_files.
  rewrite <- (app_nil_r xml_files) at 1.
  rewrite (run_calls_ok_prefix started xml_files 0 [] σ Hok). reflexivity.
Qed.

(** C5, amended: when the call for [p] is the first, in list order, to
    fail, [process_files] raises its exception; the calls that ran are those
    before it, its own, and those after it that had been started before
    being cancelled; their effects are the only ones: each of them has its
    outcome in the log, and the file of any other path is as it was. *)
Theorem first_failure_propagates (started : nat → bool)
    (pre : list path) (p : path) (post : list path) (σ : state) (e : exn) :
  (∀ k q, pre !! k = Some q →
          (process_xml_file q (run_seq (take k pre) σ)).1 = Ok tt) →
  (process_xml_file p (run_seq pre σ)).1 = Raise e →
  let ran := pre ++ p :: started_calls started (S (length pre)) post in
  process_files started (pre ++ p :: post) σ = (Raise e, run_seq ran σ)
  ∧ (∀ q, q ∈ ran → outcome_logged q (run_seq ran σ))
  ∧ (∀ q, q ∉ ran → files (run_seq ran σ) !! q = files σ !! q).
Proof.
  intros Hok Hfail ran.
  split; [|split; [intros q; apply run_seq_logged|intros q; apply run_seq_frame]].
  unfold process_files. rewrite (run_calls_ok_prefix started pre 0 _ σ Hok).
  cbn [run_calls Nat.add].
  destruct (process_xml_file p (run_seq pre σ)) as [r σ1] eqn:Hp.
  cbn [fst] in Hfail. subst r. rewrite run_calls_after_failure.
  unfold ran. rewrite run_seq_app. unfold run_seq at 2. cbn [fold_left].
  rewrite Hp. reflexivity.
Qed.

Lemma first_failure_propagates_witness :
  process_files (fun _ => false) ["a.xml"; "gone.xml"; "c.xml"] sample_loaded
    = (Raise (FileNotFoundError "gone.xml"),
       run_seq ["a.xml"; "gone.xml"] sample_loaded).
Proof.
  apply (first_failure_propagates (fun _ => false) ["a.xml"] "gone.xml" ["c.xml"]
           sample_loaded (FileNotFoundError "gone.xml")).
  - intros [|k] q Hk; [|destruct k; discriminate Hk].
    injection Hk as <-. vm_compute. reflexivity.
  - vm_compute. reflexivity.
Defined.

(** C5 as stated fails: with [gone.xml] missing, the batch raises; when the
    call for [c.xml] is cancelled before it starts, [c.xml] keeps its token
    and nothing is logged for it, although its own processing succeeds. *)
Lemma failure_isolation_counterexample :
  (∀ started,
     (process_files started ["a.xml"; "gone.xml"; "c.xml"] sample_loaded).1
     = Raise (FileNotFoundError "gone.xml"))
  ∧ (process_xml_file "c.xml" sample_loaded).1 = Ok tt
  ∧ files (process_xml_file "c.xml" sample_loaded).2 !! "c.xml"
    = Some (Text (lit "<y>a</y>"))
  ∧ files (process_files (fun _ => false) ["a.xml"; "gone.xml"; "c.xml"]
             sample_loaded).2 !! "c.xml"
    = Some (Text (lit "<y>hash_CA2E9442</y>"))
  ∧ ¬ isolated (fun _ => false) ["a.xml"; "gone.xml"; "c.xml"] sample_loaded.
Proof.
  split; [|split; [|split; [|split]]].
  - intros started. unfold process_files. cbn [run_calls].
    destruct (process_xml_file "a.xml" sample_loaded) as [r σ1] eqn:Ha.
    vm_compute in Ha. injection Ha as <- <-.
    match goal with
    | |- context [process_xml_file "gone.xml" ?σ] =>
        destruct (process_xml_file "gone.xml" σ) as [r σ2] eqn:Hg
    end.
    vm_compute in Hg. injection Hg as <- <-.
    destruct (started 2); reflexivity.
  - vm_compute. reflexivity.
  - vm_compute. reflexivity.
  - vm_compute. reflexivity.
  - intros Hiso. destruct (Hiso "c.xml") as [Hfile _].
    + apply (bool_decide_unpack _). vm_compute. exact I.
    + vm_compute in Hfile. discriminate Hfile.
Qed.

(** ** Checks on the sample run *)

Example joaat_hash_a : joaat_hash ascii_lower (lit "a") = lit "hash_CA2E9442".
Proof. vm_compute. reflexivity. Qed.

Example joaat_hash_player_ped :
  joaat_hash ascii_lower (lit "Player_Ped") = lit "hash_3B599EAA".
Proof. vm_compute. reflexivity. Qed.

Example substitute_item :
  substitute (nametable_of_lines ascii_lower [lit "Player_Ped"; lit "Vehicle_Model"])
    (lit "<Item>hash_3B599EAA</Item>") = lit "<Item>Player_Ped</Item>".
Proof. vm_compute. reflexivity. Qed.

Example strip_spaces : Py.strip (lit "  a b  ") = lit "a b".
Proof. vm_compute. reflexivity. Qed.

Example lines_crlf :
  Io.lines (Io.universal_newlines (lit "a" ++ [13; 10]%Z ++ lit "b"))
  = [lit "a" ++ [10%Z]; lit "b"].
Proof. vm_compute. reflexivity. Qed.

Example format_08X_255 : Py.format_08X 255 = lit "000000FF".
Proof. vm_compute. reflexivity. Qed.

Example main_all_ok :
  trace (main ascii_lower (fun _ => true) "names.txt" ["a.xml"; "b.xml"; "c.xml"]
           (State ∅ sample_files ∅ [])).2
  = [Read "names.txt"; LogInfo (Loaded 1);
     Read "a.xml"; Written "a.xml" (lit "<x>a</x>"); LogInfo (Processed "a.xml");
     Read "b.xml"; LogInfo (NoChangesNeeded "b.xml");
     Read "c.xml"; Written "c.xml" (lit "<y>a</y>"); LogInfo (Processed "c.xml");
     ShowInfoSuccess; RootDestroy].
Proof. vm_compute. reflexivity. Qed.

Example main_one_missing :
  trace (main ascii_lower (fun _ => false) "names.txt" ["a.xml"; "gone.xml"; "c.xml"]
           (State ∅ sample_files ∅ [])).2
  = [Read "names.txt"; LogInfo (Loaded 1);
     Read "a.xml"; Written "a.xml" (lit "<x>a</x>"); LogInfo (Processed "a.xml");
     LogError (ErrorProcessing "gone.xml" (FileNotFoundError "gone.xml"));
     LogError (AnErrorOccurred (FileNotFoundError "gone.xml"));
     ShowError (FileNotFoundError "gone.xml"); RootDestroy].
Proof. vm_compute. reflexivity. Qed.

(** * Further properties of the code *)

(** ** The hasher and the pattern together *)

(** X1: the accumulator is a 32-bit value after every iteration of the loop and
    after the final mixing, whatever came in; the result is thirteen
    characters long, has upper-case digits only, and is matched whole by the
    compiled pattern. *)
Theorem joaat_hash_well_formed (lower : str → str) (text : str) :
  (∀ hash_value char, (0 ≤ joaat_step hash_value char < 2 ^ 32)%Z)
  ∧ (0 ≤ joaat_value lower text < 2 ^ 32)%Z
  ∧ length (joaat_hash lower text) = 13
  ∧ take 5 (joaat_hash lower text) = lit "hash_"
  ∧ Forall (.∈ lit "0123456789ABCDEF") (drop 5 (joaat_hash lower text))
  ∧ Re.hash_pattern_match (joaat_hash lower text) = Some (joaat_hash lower text, []).
Proof.
  destruct (joaat_hash_token lower text) as [Ht Hup].
  split; [|split; [|split; [|split; [|split]]]].
  - intros h c. unfold joaat_step. rewrite (land_mask32 (Z.lxor _ _)).
    apply Z.mod_pos_bound. lia.
  - apply joaat_value_range.
  - apply token_length, Ht.
  - destruct Ht as (ds & -> & _). reflexivity.
  - exact Hup.
  - apply hash_pattern_match_Some. rewrite app_nil_r. auto.
Qed.

(** ** Scanning *)

(** Induction along the scan of [Pattern.sub]. *)
Lemma scan_ind (P : str → Prop) :
  P [] →
  (∀ m rest, Grammar.token m →
             Re.hash_pattern_match (m ++ rest) = Some (m, rest) → P rest → P (m ++ rest)) →
  (∀ c s, Re.hash_pattern_match (c :: s) = None → P s → P (c :: s)) →
  ∀ s, P s.
Proof.
  intros Hnil Hmatch Hother s.
  assert (∀ n s, length s ≤ n → P s) as Hall; [|apply (Hall (length s)); lia].
  clear s. induction n as [|n IH]; intros s Hn.
  - destruct s; [exact Hnil|cbn in Hn; lia].
  - destruct s as [|c s]; [exact Hnil|].
    destruct (Re.hash_pattern_match (c :: s)) as [[m rest]|] eqn:Hm.
    + pose proof Hm as Hm'. apply hash_pattern_match_Some in Hm' as [Ht Heq].
      rewrite Heq in Hm |- *. apply Hmatch; [exact Ht|exact Hm|].
      apply IH. apply token_length in Ht.
      apply (f_equal length) in Heq. rewrite length_app in Heq.
      cbn [length] in Heq, Hn. lia.
    + apply Hother; [exact Hm|]. apply IH. cbn [length] in Hn. lia.
Qed.


(** X3: tokens cannot overlap: around any token in the content the substitution
    works piece by piece, the token being replaced by [repl]. *)
Theorem substitute_around_token (tbl : table) (pre t post : str) :
  Re.hash_pattern_match t = Some (t, []) →
  substitute tbl (pre ++ t ++ post)
    = substitute tbl pre ++ default t (tbl !! t) ++ substitute tbl post.
Proof.
  intros Hm. apply hash_pattern_match_Some in Hm as [Ht _].
  apply substitute_app_token. exact Ht.
Qed.

Lemma substitute_around_token_witness :
  substitute (nametable_of_lines ascii_lower [lit "a"])
    (lit "<x>hash_0000000" ++ lit "hash_CA2E9442" ++ lit "0</x>")
  = lit "<x>hash_0000000" ++ lit "a" ++ lit "0</x>".
Proof.
  rewrite (substitute_around_token _ (lit "<x>hash_0000000") (lit "hash_CA2E9442")
             (lit "0</x>") eq_refl).
  vm_compute. reflexivity.
Defined.

(** ** Trimming *)

Lemma lstrip_head s :
  Py.lstrip s = [] ∨ ∃ c r, Py.lstrip s = c :: r ∧ Py.isspace c = false.
Proof.
  induction s as [|c s IH]; [left; reflexivity|].
  cbn [Py.lstrip]. destruct (Py.isspace c) eqn:Hc; [exact IH|].
  right. exists c, s. auto.
Qed.

Lemma lstrip_nonspace c r : Py.isspace c = false → Py.lstrip (c :: r) = c :: r.
Proof. intros Hc. cbn [Py.lstrip]. rewrite Hc. reflexivity. Qed.

Lemma lstrip_app_nonempty s x : Py.lstrip s ≠ [] → Py.lstrip (s ++ x) = Py.lstrip s ++ x.
Proof.
  induction s as [|c s IH]; intros Hne; [destruct Hne; reflexivity|].
  cbn [Py.lstrip app] in *. destruct (Py.isspace c); [apply IH, Hne|reflexivity].
Qed.

Lemma lstrip_app_space s w :
  Py.lstrip s = [] → Py.isspace w = true → Py.lstrip (s ++ [w]) = [].
Proof.
  induction s as [|c s IH]; intros Hs Hw.
  - cbn [app Py.lstrip]. rewrite Hw. reflexivity.
  - cbn [Py.lstrip app] in *. destruct (Py.isspace c); [apply IH; auto|discriminate].
Qed.

Lemma rstrip_nil : Py.rstrip [] = [].
Proof. reflexivity. Qed.

Lemma rstrip_cons_nonspace c r :
  Py.isspace c = false → Py.rstrip (c :: r) = c :: Py.rstrip r.
Proof.
  intros Hc. unfold Py.rstrip. rewrite reverse_cons.
  destruct (lstrip_head (reverse r)) as [Hnil|(d & u & Hu & Hd)].
  - assert (Py.lstrip (reverse r ++ [c]) = [c]) as ->.
    { clear -Hnil Hc. induction (reverse r) as [|e l IH].
      - cbn [app Py.lstrip]. rewrite Hc. reflexivity.
      - cbn [Py.lstrip app] in *. destruct (Py.isspace e); [auto|discriminate]. }
    rewrite Hnil. reflexivity.
  - rewrite lstrip_app_nonempty by (rewrite Hu; discriminate).
    rewrite reverse_app. reflexivity.
Qed.

Lemma rstrip_app_space u w : Py.isspace w = true → Py.rstrip (u ++ [w]) = Py.rstrip u.
Proof.
  intros Hw. unfold Py.rstrip. rewrite reverse_app. cbn [reverse app Py.lstrip].
  change (reverse [w]) with [w]. cbn [app Py.lstrip]. rewrite Hw. reflexivity.
Qed.

Lemma rstrip_idem s : Py.rstrip (Py.rstrip s) = Py.rstrip s.
Proof.
  unfold Py.rstrip. rewrite reverse_involutive. f_equal.
  destruct (lstrip_head (reverse s)) as [->|(c & r & -> & Hc)]; [reflexivity|].
  apply lstrip_nonspace, Hc.
Qed.

Lemma strip_idem s : Py.strip (Py.strip s) = Py.strip s.
Proof.
  unfold Py.strip.
  destruct (lstrip_head s) as [->|(c & r & -> & Hc)]; [reflexivity|].
  rewrite (rstrip_cons_nonspace c r Hc), (lstrip_nonspace c _ Hc).
  rewrite <- (rstrip_cons_nonspace c r Hc). apply rstrip_idem.
Qed.

Lemma strip_app_space s w : Py.isspace w = true → Py.strip (s ++ [w]) = Py.strip s.
Proof.
  intros Hw. unfold Py.strip.
  destruct (lstrip_head s) as [Hnil|(c & r & Hs & Hc)].
  - rewrite (lstrip_app_space s w Hnil Hw), Hnil. reflexivity.
  - rewrite lstrip_app_nonempty by (rewrite Hs; discriminate).
    apply rstrip_app_space, Hw.
Qed.

(** ** The name table, further *)

(** X4: every entry of the table has as key the token of its value, a text the
    pattern matches whole; the value is not empty and has no white space at
    either end; and there are at most as many entries as lines. *)
Theorem nametable_of_lines_entries (lower : str → str) (lines : list str) :
  (∀ key name,
     nametable_of_lines lower lines !! key = Some name →
     key = joaat_hash lower name ∧ name ≠ [] ∧ Py.strip name = name
     ∧ Re.hash_pattern_match key = Some (key, []))
  ∧ size (nametable_of_lines lower lines) ≤ length lines.
Proof.
  split.
  - intros key name Hl.
    apply nametable_of_lines_lookup in Hl as (i & line & _ & Hnb & -> & -> & _).
    split; [reflexivity|]. split; [exact Hnb|]. split; [apply strip_idem|].
    apply hash_pattern_match_Some. rewrite app_nil_r.
    split; [apply joaat_hash_token|reflexivity].
  - induction lines as [|last lines IH] using rev_ind; [reflexivity|].
    rewrite nametable_of_lines_snoc, length_app. cbn [length].
    case_bool_decide; [|lia].
    destruct (nametable_of_lines lower lines !! joaat_hash lower (Py.strip last))
      as [old|] eqn:Hold.
    + rewrite map_size_insert_Some by (rewrite Hold; eauto). lia.
    + rewrite map_size_insert_None by exact Hold. lia.
Qed.

(** X5: the table of a list followed by another is the table of the second,
    completed by the entries of the first whose keys the second has not. *)
Theorem nametable_of_lines_app (lower : str → str) (lines1 lines2 : list str) :
  nametable_of_lines lower (lines1 ++ lines2)
  = nametable_of_lines lower lines2 ∪ nametable_of_lines lower lines1.
Proof.
  induction lines2 as [|last lines2 IH] using rev_ind.
  - rewrite app_nil_r. unfold nametable_of_lines at 2. cbn [fold_left].
    rewrite (left_id_L ∅ (∪)). reflexivity.
  - rewrite app_assoc, !nametable_of_lines_snoc, IH.
    case_bool_decide; [|reflexivity].
    rewrite insert_union_l. reflexivity.
Qed.

(** X6: white space around a name and blank lines do not count: the table of
    the lines is the table of their non-empty trimmed forms. *)
Theorem nametable_of_lines_trimmed (lower : str → str) (lines : list str) :
  nametable_of_lines lower lines
  = nametable_of_lines lower
      (filter (λ name, name ≠ []) (Py.strip <$> lines)).
Proof.
  induction lines as [|last lines IH] using rev_ind; [reflexivity|].
  rewrite fmap_app, filter_app, nametable_of_lines_snoc. cbn [fmap list_fmap].
  rewrite filter_cons, filter_nil.
  case_bool_decide as Hnb.
  - rewrite decide_True by exact Hnb.
    rewrite nametable_of_lines_snoc, strip_idem, bool_decide_true by exact Hnb.
    rewrite IH. reflexivity.
  - rewrite decide_False by (intros Hne; exact (Hne Hnb)).
    rewrite app_nil_r. exact IH.
Qed.

(** ** Reading lines *)

Lemma universal_newlines_plain n rest :
  Forall not_eol n →
  Io.universal_newlines (n ++ rest) = n ++ Io.universal_newlines rest.
Proof.
  induction 1 as [|c n [_ Hc] _ IH]; [reflexivity|].
  cbn [app Io.universal_newlines].
  destruct (Z.eqb_spec c 13) as [?|_]; [contradiction|]. rewrite IH. reflexivity.
Qed.

Lemma text_of_lines_head names last r :
  Forall (Forall not_eol) names → Forall not_eol last →
  text_of_lines [13%Z] names ++ last ≠ 10%Z :: r.
Proof.
  intros Hn Hl Heq. destruct names as [|[|c n] names]; cbn in Heq.
  - rewrite Heq in Hl. apply Forall_cons in Hl as [[Hc _] _]. congruence.
  - discriminate Heq.
  - injection Heq as Hc0 _. subst c. apply Forall_cons in Hn as [Hn _].
    apply Forall_cons in Hn as [[Hc _] _]. congruence.
Qed.

Lemma universal_newlines_text eol names last :
  eol = [10%Z] ∨ eol = [13; 10]%Z ∨ eol = [13%Z] →
  Forall (Forall not_eol) names → Forall not_eol last →
  Io.universal_newlines (text_of_lines eol names ++ last)
  = text_of_lines [10%Z] names ++ last.
Proof.
  intros Heol Hn Hl. induction Hn as [|n names Hplain Hn IH].
  - cbn [text_of_lines app]. rewrite <- (app_nil_r last) at 1.
    rewrite universal_newlines_plain by exact Hl. rewrite app_nil_r. reflexivity.
  - cbn [text_of_lines]. rewrite <- !app_assoc.
    rewrite universal_newlines_plain by exact Hplain. f_equal.
    destruct Heol as [-> | [-> | ->]]; cbn [app Io.universal_newlines Z.eqb Pos.eqb];
      try (rewrite IH; reflexivity).
    destruct (text_of_lines [13%Z] names ++ last) as [|c r] eqn:Hrest.
    + rewrite <- IH. reflexivity.
    + destruct (Z.eqb_spec c 10) as [->|_].
      * destruct (text_of_lines_head names last r Hn Hl Hrest).
      * rewrite <- IH. reflexivity.
Qed.

Lemma lines_from_plain n : ∀ cur rest,
  Forall not_eol n →
  Io.lines_from cur (n ++ rest) = Io.lines_from (reverse n ++ cur) rest.
Proof.
  induction n as [|c n IH]; intros cur rest Hn; [reflexivity|].
  apply Forall_cons in Hn as [[Hc _] Hn].
  cbn [app Io.lines_from]. destruct (Z.eqb_spec c 10) as [?|_]; [contradiction|].
  rewrite IH by exact Hn. rewrite reverse_cons, <- app_assoc. reflexivity.
Qed.

Lemma lines_text names last :
  Forall (Forall not_eol) names → Forall not_eol last →
  Io.lines (text_of_lines [10%Z] names ++ last)
  = ((λ name, name ++ [10%Z]) <$> names)
    ++ match last with [] => [] | _ => [last] end.
Proof.
  intros Hn Hl. unfold Io.lines. induction Hn as [|n names Hplain Hn IH].
  - cbn [text_of_lines app fmap list_fmap].
    rewrite <- (app_nil_r last) at 1. rewrite lines_from_plain by exact Hl.
    rewrite app_nil_r. cbn [Io.lines_from].
    destruct last as [|c l]; [reflexivity|].
    destruct (reverse (c :: l)) as [|d u] eqn:Hr.
    + apply (f_equal reverse) in Hr. rewrite reverse_involutive in Hr. discriminate Hr.
    + rewrite <- Hr, reverse_involutive. reflexivity.
  - cbn [text_of_lines fmap list_fmap app]. rewrite <- !app_assoc.
    rewrite lines_from_plain by exact Hplain. cbn [app Io.lines_from Z.eqb Pos.eqb].
    rewrite app_nil_r, reverse_cons, reverse_involutive.
    fold (text_of_lines [10%Z] names). rewrite IH. reflexivity.
Qed.

(** X7: a source list with one name per line gives the table of its names,
    whether the lines end in LF, CR LF or CR, and whether or not the last
    line is ended. *)
Theorem nametable_of_text (lower : str → str) (eol : str) (names : list str)
    (last : str) :
  eol = [10%Z] ∨ eol = [13; 10]%Z ∨ eol = [13%Z] →
  Forall (Forall not_eol) names → Forall not_eol last →
  nametable_of_lines lower
    (Io.lines (Io.universal_newlines (text_of_lines eol names ++ last)))
  = nametable_of_lines lower (names ++ [last]).
Proof.
  intros Heol Hn Hl.
  rewrite (universal_newlines_text eol names last Heol Hn Hl).
  rewrite (lines_text names last Hn Hl).
  rewrite (nametable_of_lines_trimmed lower (names ++ [last])).
  rewrite (nametable_of_lines_trimmed lower (_ ++ _)).
  f_equal. rewrite !fmap_app, !filter_app. f_equal.
  - f_equal. rewrite <- list_fmap_compose. apply list_fmap_ext.
    intros i name _. cbn. apply strip_app_space. reflexivity.
  - destruct last; reflexivity.
Qed.

Lemma nametable_of_text_witness :
  nametable_of_lines ascii_lower
    (Io.lines (Io.universal_newlines
                 (text_of_lines [13; 10]%Z [lit "Player_Ped"; lit ""; lit " b "]
                  ++ lit "Vehicle_Model")))
  = nametable_of_lines ascii_lower
      ([lit "Player_Ped"; lit ""; lit " b "] ++ [lit "Vehicle_Model"]).
Proof.
  apply nametable_of_text.
  - right. left. reflexivity.
  - repeat constructor; vm_compute; discriminate.
  - repeat constructor; vm_compute; discriminate.
Defined.

(** ** One call, further *)

Lemma process_xml_file_state p σ :
  nametable (process_xml_file p σ).2 = nametable σ
  ∧ readonly (process_xml_file p σ).2 = readonly σ
  ∧ files (process_xml_file p σ).2 = files_after (nametable σ) (readonly σ) (files σ) p
  ∧ (process_xml_file p σ).1
    = if call_succeeds (nametable σ) (readonly σ) p (files σ !! p)
      then Ok tt
      else Raise (match files σ !! p with
                  | None => FileNotFoundError p
                  | Some Undecodable => UnicodeDecodeError p
                  | Some (Text _) => PermissionError p
                  end).
Proof.
  unfold files_after, written_data, call_succeeds.
  destruct (files σ !! p) as [[raw|]|] eqn:Hf.
  - cbv zeta. unfold changed.
    destruct (decide (substitute (nametable σ) (Io.universal_newlines raw)
                      = Io.universal_newlines raw)) as [Hsame|Hdiff].
    + rewrite (process_xml_file_unchanged _ _ _ Hf Hsame).
      rewrite bool_decide_false by auto. auto.
    + rewrite (bool_decide_true _ Hdiff).
      destruct (decide (p ∈ readonly σ)) as [Hro|Hw].
      * rewrite (process_xml_file_readonly _ _ _ Hf Hdiff Hro).
        rewrite (bool_decide_true _ Hro). auto.
      * rewrite (process_xml_file_written _ _ _ Hf Hdiff Hw).
        rewrite (bool_decide_false _ Hw). auto.
  - rewrite (process_xml_file_undecodable _ _ Hf). auto.
  - rewrite (process_xml_file_missing _ _ Hf). auto.
Qed.

(** X8: a call never alters the table, the permissions or the file of
    another path, and what was logged before it stays, whether it returns
    or raises. *)
Theorem process_xml_file_effects (xml_file : path) (σ : state) :
  nametable (process_xml_file xml_file σ).2 = nametable σ
  ∧ readonly (process_xml_file xml_file σ).2 = readonly σ
  ∧ (∀ q, q ≠ xml_file → files (process_xml_file xml_file σ).2 !! q = files σ !! q)
  ∧ (∃ evs, trace (process_xml_file xml_file σ).2 = trace σ ++ evs).
Proof.
  destruct (process_xml_file_state xml_file σ) as (Hn & Hr & _ & _).
  split; [exact Hn|]. split; [exact Hr|].
  split; [intros q Hq; apply process_xml_file_frame, Hq|].
  destruct (process_xml_file_logs xml_file σ) as (evs & He & _). eauto.
Qed.

(** ** Many calls *)

Lemma run_seq_cons p ps σ : run_seq (p :: ps) σ = run_seq ps (process_xml_file p σ).2.
Proof. reflexivity. Qed.

Lemma run_seq_state ps : ∀ σ,
  nametable (run_seq ps σ) = nametable σ
  ∧ readonly (run_seq ps σ) = readonly σ
  ∧ files (run_seq ps σ)
    = fold_left (files_after (nametable σ) (readonly σ)) ps (files σ).
Proof.
  induction ps as [|p ps IH]; intros σ; [auto|].
  rewrite run_seq_cons. cbn [fold_left].
  destruct (process_xml_file_state p σ) as (Hn & Hr & Hfs & _).
  destruct (IH (process_xml_file p σ).2) as (Hn' & Hr' & Hfs').
  rewrite Hn', Hr', Hfs', Hn, Hr, Hfs. auto.
Qed.

Lemma files_after_other nt ro fs p q : q ≠ p → files_after nt ro fs p !! q = fs !! q.
Proof.
  intros Hne. unfold files_after.
  destruct (written_data nt ro p (fs !! p)); [apply lookup_insert_ne; auto|reflexivity].
Qed.

Lemma files_after_comm nt ro fs p q :
  files_after nt ro (files_after nt ro fs p) q
  = files_after nt ro (files_after nt ro fs q) p.
Proof.
  destruct (decide (p = q)) as [->|Hne]; [reflexivity|].
  unfold files_after at 1 3.
  rewrite (files_after_other nt ro fs p q) by auto.
  rewrite (files_after_other nt ro fs q p) by auto.
  unfold files_after.
  destruct (written_data nt ro p (fs !! p)), (written_data nt ro q (fs !! q));
    try reflexivity.
  apply insert_insert_ne. auto.
Qed.

Lemma fold_files_after_perm nt ro ps qs :
  ps ≡ₚ qs → ∀ fs,
  fold_left (files_after nt ro) ps fs = fold_left (files_after nt ro) qs fs.
Proof.
  induction 1 as [|x l l' _ IH|x y l|l l' l'' _ IH1 _ IH2]; intros fs; cbn [fold_left].
  - reflexivity.
  - apply IH.
  - rewrite files_after_comm. reflexivity.
  - rewrite IH1. apply IH2.
Qed.

(** X9: the order of the calls does not matter for the files: processing the
    same paths in another order leaves the same files, table and
    permissions. *)
Theorem run_seq_order (xml_files xml_files' : list path) (σ : state) :
  xml_files ≡ₚ xml_files' →
  files (run_seq xml_files σ) = files (run_seq xml_files' σ)
  ∧ nametable (run_seq xml_files σ) = nametable (run_seq xml_files' σ)
  ∧ readonly (run_seq xml_files σ) = readonly (run_seq xml_files' σ).
Proof.
  intros Hperm.
  destruct (run_seq_state xml_files σ) as (-> & -> & ->).
  destruct (run_seq_state xml_files' σ) as (-> & -> & ->).
  split; [apply fold_files_after_perm, Hperm|auto].
Qed.

Lemma run_seq_order_witness :
  files (run_seq ["a.xml"; "gone.xml"; "c.xml"; "b.xml"] sample_loaded)
  = files (run_seq ["b.xml"; "c.xml"; "a.xml"; "gone.xml"] sample_loaded).
Proof.
  apply run_seq_order.
  apply (bool_decide_unpack _). vm_compute. exact I.
Defined.

Lemma run_calls_None_inv started ps : ∀ i σ σ',
  run_calls started i None ps σ = (None, σ') →
  σ' = run_seq ps σ
  ∧ ∀ k q, ps !! k = Some q →
           (process_xml_file q (run_seq (take k ps) σ)).1 = Ok tt.
Proof.
  induction ps as [|p ps IH]; intros i σ σ' Hrun.
  - cbn in Hrun. injection Hrun as <-. split; [reflexivity|].
    intros k q Hk. rewrite lookup_nil in Hk. discriminate Hk.
  - cbn [run_calls] in Hrun.
    destruct (process_xml_file p σ) as [[[]|e] σ1] eqn:Hp.
    + apply IH in Hrun as [-> Hok]. rewrite run_seq_cons, Hp.
      split; [reflexivity|]. intros [|k] q Hk.
      * injection Hk as <-. cbn [take]. change (run_seq [] σ) with σ.
        rewrite Hp. reflexivity.
      * cbn [take]. rewrite run_seq_cons, Hp. apply Hok, Hk.
    + rewrite run_calls_after_failure in Hrun. discriminate Hrun.
Qed.


Lemma fold_files_after_other nt ro ps : ∀ fs q,
  q ∉ ps → fold_left (files_after nt ro) ps fs !! q = fs !! q.
Proof.
  induction ps as [|p ps IH]; intros fs q Hq; [reflexivity|].
  apply not_elem_of_cons in Hq as [Hne Hq]. cbn [fold_left].
  rewrite IH by exact Hq. apply files_after_other, Hne.
Qed.

Lemma fold_files_after_own nt ro ps : ∀ fs p,
  NoDup ps → p ∈ ps →
  fold_left (files_after nt ro) ps fs !! p = files_after nt ro fs p !! p.
Proof.
  induction ps as [|p' ps IH]; intros fs p Hnd Hp; [inversion Hp|].
  apply NoDup_cons in Hnd as [Hnotin Hnd]. cbn [fold_left].
  apply elem_of_cons in Hp as [->|Hp].
  - apply fold_files_after_other, Hnotin.
  - rewrite IH by assumption.
    assert (p ≠ p') as Hne by (intros ->; auto).
    unfold files_after at 1 3. rewrite (files_after_other nt ro fs p' p Hne).
    destruct (written_data nt ro p (fs !! p));
      [rewrite !lookup_insert_eq; reflexivity|apply files_after_other, Hne].
Qed.

Lemma call_succeeds_seq ps : ∀ σ k q,
  NoDup ps → ps !! k = Some q →
  (process_xml_file q (run_seq (take k ps) σ)).1 = Ok tt →
  call_succeeds (nametable σ) (readonly σ) q (files σ !! q) = true.
Proof.
  intros σ k q Hnd Hk Hok.
  destruct (process_xml_file_state q (run_seq (take k ps) σ)) as (_ & _ & _ & Hres).
  destruct (run_seq_state (take k ps) σ) as (Hn & Hr & Hfs).
  rewrite Hres, Hn, Hr, Hfs in Hok.
  rewrite fold_files_after_other in Hok.
  - destruct (call_succeeds _ _ _ _); [reflexivity|discriminate Hok].
  - intros Hin. apply list_elem_of_lookup in Hin as [j Hj].
    apply lookup_take_Some in Hj as [Hj Hlt].
    pose proof (NoDup_lookup _ _ _ _ Hnd Hj Hk). lia.
Qed.

Lemma call_result_local ps σ k q :
  NoDup ps → ps !! k = Some q →
  (process_xml_file q (run_seq (take k ps) σ)).1 = (process_xml_file q σ).1.
Proof.
  intros Hnd Hk.
  destruct (process_xml_file_state q (run_seq (take k ps) σ)) as (_ & _ & _ & ->).
  destruct (process_xml_file_state q σ) as (_ & _ & _ & ->).
  destruct (run_seq_state (take k ps) σ) as (-> & -> & ->).
  rewrite fold_files_after_other; [reflexivity|].
  intros Hin. apply list_elem_of_lookup in Hin as [j Hj].
  apply lookup_take_Some in Hj as [Hj Hlt].
  pose proof (NoDup_lookup _ _ _ _ Hnd Hj Hk). lia.
Qed.

(** X10: over distinct paths, [process_files] returns normally exactly when
    the call for every path of the list, taken on its own, returns
    normally, whatever the scheduling. *)
Theorem process_files_ok (started : nat → bool) (xml_files : list path) (σ : state) :
  NoDup xml_files →
  ((process_files started xml_files σ).1 = Ok tt ↔
   ∀ q, q ∈ xml_files → (process_xml_file q σ).1 = Ok tt).
Proof.
  intros Hnd. split.
  - intros Hok q Hq. apply list_elem_of_lookup in Hq as [k Hk].
    rewrite <- (call_result_local xml_files σ k q Hnd Hk).
    unfold process_files in Hok.
    destruct (run_calls started 0 None xml_files σ) as [[e|] σ'] eqn:Hrun;
      [discriminate|].
    apply (run_calls_None_inv started xml_files 0 σ σ' Hrun), Hk.
  - intros Hall. rewrite (process_files_all_ok started xml_files σ); [reflexivity|].
    intros k q Hk. rewrite (call_result_local xml_files σ k q Hnd Hk).
    apply Hall. eapply list_elem_of_lookup_2. exact Hk.
Qed.

Lemma process_files_ok_witness :
  (process_files (fun _ => false) ["c.xml"; "b.xml"; "a.xml"] sample_loaded).1 = Ok tt
  ∧ (process_files (fun _ => true) ["c.xml"; "gone.xml"; "a.xml"] sample_loaded).1 ≠ Ok tt.
Proof.
  split.
  - apply (process_files_ok (fun _ => false) ["c.xml"; "b.xml"; "a.xml"] sample_loaded).
    + apply (bool_decide_unpack _). vm_compute. exact I.
    + intros q Hq.
      repeat (apply elem_of_cons in Hq as [->|Hq]; [vm_compute; reflexivity|]).
      inversion Hq.
  - intros Hok.
    apply (process_files_ok (fun _ => true) ["c.xml"; "gone.xml"; "a.xml"] sample_loaded)
      with (q := "gone.xml") in Hok.
    + vm_compute in Hok. discriminate Hok.
    + apply (bool_decide_unpack _). vm_compute. exact I.
    + apply (bool_decide_unpack _). vm_compute. exact I.
Defined.

Lemma process_files_files (started : nat → bool) (xml_files : list path)
    (σ : state) :
  NoDup xml_files → (process_files started xml_files σ).1 = Ok tt →
  (∀ p, p ∈ xml_files →
     ∃ raw, files σ !! p = Some (Text raw)
       ∧ files (process_files started xml_files σ).2 !! p
         = Some (Text (if changed (Io.universal_newlines raw)
                            (substitute (nametable σ) (Io.universal_newlines raw))
                       then substitute (nametable σ) (Io.universal_newlines raw)
                       else raw)))
  ∧ (∀ q, q ∉ xml_files →
       files (process_files started xml_files σ).2 !! q = files σ !! q)
  ∧ nametable (process_files started xml_files σ).2 = nametable σ.
Proof.
  intros Hnd Hok.
  assert ((process_files started xml_files σ).2 = run_seq xml_files σ
          ∧ ∀ k q, xml_files !! k = Some q →
                   (process_xml_file q (run_seq (take k xml_files) σ)).1 = Ok tt)
    as [-> Hall].
  { unfold process_files in *.
    destruct (run_calls started 0 None xml_files σ) as [[e|] σ'] eqn:Hrun;
      [discriminate|]. cbn [snd].
    apply (run_calls_None_inv started xml_files 0 σ σ' Hrun). }
  destruct (run_seq_state xml_files σ) as (Hn & _ & Hfs).
  split; [|split; [|exact Hn]].
  - intros p Hp. pose proof Hp as Hp'.
    apply list_elem_of_lookup in Hp' as [k Hk].
    pose proof (call_succeeds_seq xml_files σ k p Hnd Hk (Hall k p Hk)) as Hs.
    rewrite Hfs, (fold_files_after_own _ _ _ _ _ Hnd Hp).
    unfold files_after, written_data, call_succeeds in *.
    destruct (files σ !! p) as [[raw|]|] eqn:Hf; try discriminate Hs.
    exists raw. split; [reflexivity|]. cbv zeta in *.
    destruct (changed _ _) eqn:Hc; cbn [andb negb] in *.
    + apply negb_true_iff in Hs. rewrite Hs. cbn [negb].
      apply lookup_insert_eq.
    + exact Hf.
  - intros q Hq. rewrite Hfs. apply fold_files_after_other, Hq.
Qed.

(** X11: after a batch over distinct paths that returned normally, every file of
    the batch was text and now holds the substitution of the content read
    from it when that differs from the content read, and what it held
    otherwise; every other file is as before. *)
Theorem process_files_result (started : nat → bool) (xml_files : list path)
    (σ : state) :
  NoDup xml_files → (process_files started xml_files σ).1 = Ok tt →
  (∀ p, p ∈ xml_files →
     ∃ raw, files σ !! p = Some (Text raw)
       ∧ files (process_files started xml_files σ).2 !! p
         = Some (Text (if changed (Io.universal_newlines raw)
                            (substitute (nametable σ) (Io.universal_newlines raw))
                       then substitute (nametable σ) (Io.universal_newlines raw)
                       else raw)))
  ∧ (∀ q, q ∉ xml_files →
       files (process_files started xml_files σ).2 !! q = files σ !! q)
  ∧ nametable (process_files started xml_files σ).2 = nametable σ.
Proof. apply process_files_files. Qed.


Lemma process_files_result_witness :
  files (process_files (fun _ => false) ["c.xml"; "b.xml"; "a.xml"] sample_loaded).2
    !! "c.xml" = Some (Text (lit "<y>a</y>"))
  ∧ files (process_files (fun _ => false) ["c.xml"; "b.xml"; "a.xml"] sample_loaded).2
    !! "b.xml" = Some (Text (lit "<x>hash_00000000</x>")).
Proof.
  destruct (process_files_result (fun _ => false) ["c.xml"; "b.xml"; "a.xml"]
              sample_loaded) as (Hin & _ & _).
  - apply (bool_decide_unpack _). vm_compute. exact I.
  - vm_compute. reflexivity.
  - split.
    + destruct (Hin "c.xml") as (raw & Hraw & ->).
      * apply (bool_decide_unpack _). vm_compute. exact I.
      * vm_compute in Hraw. injection Hraw as <-. vm_compute. reflexivity.
    + destruct (Hin "b.xml") as (raw & Hraw & ->).
      * apply (bool_decide_unpack _). vm_compute. exact I.
      * vm_compute in Hraw. injection Hraw as <-. vm_compute. reflexivity.
Defined.

Lemma findall_fuel_irrel f1 : ∀ f2 s,
  length s ≤ f1 → length s ≤ f2 → findall_fuel f1 s = findall_fuel f2 s.
Proof.
  induction f1 as [|f1 IH]; intros f2 s H1 H2.
  - destruct s; [|cbn in H1; lia]. destruct f2; reflexivity.
  - destruct f2 as [|f2]; [destruct s; [reflexivity|cbn in H2; lia]|].
    cbn [findall_fuel]. destruct s as [|c s]; [reflexivity|].
    destruct (Re.hash_pattern_match (c :: s)) as [[m rest]|] eqn:Hm.
    + apply hash_pattern_match_Some in Hm as [Ht Hs]. apply token_length in Ht.
      assert (length (c :: s) = 13 + length rest) as Hlen
        by (rewrite Hs, length_app; lia).
      f_equal. apply IH; lia.
    + cbn [length] in *. apply IH; lia.
Qed.

Lemma findall_match s m rest :
  Re.hash_pattern_match s = Some (m, rest) →
  hash_pattern_findall s = m :: hash_pattern_findall rest.
Proof.
  intros Hm. unfold hash_pattern_findall.
  pose proof Hm as Hm'. apply hash_pattern_match_Some in Hm' as [Ht Hs].
  apply token_length in Ht.
  destruct s as [|c s]; [discriminate Hm|].
  cbn [length findall_fuel]. rewrite Hm. f_equal.
  apply findall_fuel_irrel; [|lia].
  assert (length (c :: s) = 13 + length rest) as Hlen by (rewrite Hs, length_app; lia).
  cbn [length] in Hlen. lia.
Qed.

Lemma findall_nomatch c s :
  Re.hash_pattern_match (c :: s) = None →
  hash_pattern_findall (c :: s) = hash_pattern_findall s.
Proof.
  intros Hm. unfold hash_pattern_findall. cbn [length findall_fuel].
  rewrite Hm. reflexivity.
Qed.

(** Every match found is a token that occurs in the text. *)
Lemma findall_occurs s : ∀ t,
  t ∈ hash_pattern_findall s → Grammar.token t ∧ ∃ pre post, s = pre ++ t ++ post.
Proof.
  pattern s. revert s. apply scan_ind.
  - intros t Ht. inversion Ht.
  - intros m rest Hm Hmatch IH t Ht. rewrite (findall_match _ _ _ Hmatch) in Ht.
    apply elem_of_cons in Ht as [->|Ht].
    + split; [exact Hm|]. exists [], rest. reflexivity.
    + destruct (IH t Ht) as (Htok & pre & post & ->).
      split; [exact Htok|]. exists (m ++ pre), post. rewrite <- app_assoc. reflexivity.
  - intros c s Hno IH t Ht. rewrite (findall_nomatch _ _ Hno) in Ht.
    destruct (IH t Ht) as (Htok & pre & post & ->).
    split; [exact Htok|]. exists (c :: pre), post. reflexivity.
Qed.

Lemma substitute_no_key tbl : ∀ s,
  (∀ t, t ∈ hash_pattern_findall s → tbl !! t = None) → substitute tbl s = s.
Proof.
  apply (scan_ind (λ s, (∀ t, t ∈ hash_pattern_findall s → tbl !! t = None) →
                        substitute tbl s = s)).
  - reflexivity.
  - intros m rest Hm Hmatch IH Hkeys. rewrite (findall_match _ _ _ Hmatch) in Hkeys.
    rewrite (substitute_match _ _ _ _ Hmatch).
    rewrite (repl_unknown _ _ (Hkeys m (list_elem_of_here _ _))).
    rewrite IH; [reflexivity|]. intros t Ht. apply Hkeys, list_elem_of_further, Ht.
  - intros c s Hno IH Hkeys. rewrite (findall_nomatch _ _ Hno) in Hkeys.
    rewrite (substitute_nomatch _ _ _ Hno), (IH Hkeys). reflexivity.
Qed.

(** X12: a readable file none of whose tokens (the matches of the pattern in
    its text) is a key of the table, in particular a file without tokens, is
    never written: the call logs that no change is needed and the files stay
    as they are. *)
Theorem process_xml_file_nothing_to_do (xml_file : path) (σ : state) (raw : str) :
  files σ !! xml_file = Some (Text raw) →
  (∀ t, t ∈ hash_pattern_findall (Io.universal_newlines raw) →
        nametable σ !! t = None) →
  process_xml_file xml_file σ =
    (Ok tt, State (nametable σ) (files σ) (readonly σ)
              (trace σ ++ [Read xml_file; LogInfo (NoChangesNeeded xml_file)])).
Proof.
  intros Hf Hkeys. apply (process_xml_file_unchanged _ _ _ Hf).
  apply substitute_no_key, Hkeys.
Qed.

Lemma process_xml_file_nothing_to_do_witness :
  nametable sample_loaded ≠ ∅
  ∧ hash_pattern_findall (lit "<x>hash_00000000</x>") = [lit "hash_00000000"]
  ∧ process_xml_file "b.xml" sample_loaded =
    (Ok tt, State (nametable sample_loaded) sample_files ∅
              [Read "b.xml"; LogInfo (NoChangesNeeded "b.xml")]).
Proof.
  split; [|split; [reflexivity|]].
  - intros H. apply (f_equal (λ m : table, m !! lit "hash_CA2E9442")) in H.
    vm_compute in H. discriminate H.
  - apply (process_xml_file_nothing_to_do "b.xml" sample_loaded
             (lit "<x>hash_00000000</x>") eq_refl).
    intros t Ht. change (t ∈ [lit "hash_00000000"]) in Ht.
    apply list_elem_of_singleton in Ht as ->. vm_compute. reflexivity.
Defined.

(** ** Loading, further *)

Lemma load_nametable_text lower filepath σ raw :
  files σ !! filepath = Some (Text raw) →
  load_nametable lower filepath σ =
    (Ok tt,
     State (nametable_of_lines lower (Io.lines (Io.universal_newlines raw)))
       (files σ) (readonly σ)
       (trace σ ++ [Read filepath;
                    LogInfo (Loaded (size (nametable_of_lines lower
                                             (Io.lines (Io.universal_newlines raw)))))])).
Proof.
  intros Hf. unfold load_nametable, try_except, mbind, M_bind, bind, Io.read_text.
  rewrite Hf. cbv zeta. unfold set_nametable, emit.
  cbn [nametable files readonly trace]. rewrite <- app_assoc. reflexivity.
Qed.

(** X13: loading replaces the table by the table of the file's lines,
    whatever the table was, and changes no file; when loading raises, the
    table and the files are as before. *)
Theorem load_nametable_replaces (lower : str → str) (filepath : path) (σ : state) :
  (∀ raw, files σ !! filepath = Some (Text raw) →
     (load_nametable lower filepath σ).1 = Ok tt
     ∧ nametable (load_nametable lower filepath σ).2
       = nametable_of_lines lower (Io.lines (Io.universal_newlines raw))
     ∧ files (load_nametable lower filepath σ).2 = files σ)
  ∧ (∀ e, (load_nametable lower filepath σ).1 = Raise e →
       nametable (load_nametable lower filepath σ).2 = nametable σ
       ∧ files (load_nametable lower filepath σ).2 = files σ).
Proof.
  split.
  - intros raw Hf. rewrite (load_nametable_text lower _ _ _ Hf). auto.
  - intros e He. destruct (files σ !! filepath) as [[raw|]|] eqn:Hf.
    + rewrite (load_nametable_text lower _ _ _ Hf) in He. discriminate He.
    + rewrite (load_nametable_unreadable lower filepath σ (or_intror Hf)). auto.
    + rewrite (load_nametable_unreadable lower filepath σ (or_introl Hf)). auto.
Qed.

(** ** [main], further *)

Lemma main_steps lower started nametable_path xml_paths σ :
  nametable_path ≠ EmptyString → xml_paths ≠ [] →
  main lower started nametable_path xml_paths σ =
    match load_nametable lower nametable_path
            (State ∅ (files σ) (readonly σ) (trace σ)) with
    | (Ok _, σ1) =>
        (Ok tt, main_end (process_files started xml_paths σ1).1
                  (process_files started xml_paths σ1).2)
    | (Raise e, σ1) => (Ok tt, main_end (Raise e) σ1)
    end.
Proof.
  intros Hp Hx. unfold main, try_finally, try_except.
  rewrite bool_decide_false by exact Hp. rewrite bool_decide_false by exact Hx.
  unfold mbind at 1, M_bind at 1, bind at 1. unfold set_nametable at 1.
  unfold mbind at 1, M_bind at 1, bind at 1.
  destruct (load_nametable lower nametable_path _) as [[[]|e] σ1].
  - unfold mbind, M_bind, bind.
    destruct (process_files started xml_paths σ1) as [[[]|e] σ2];
      unfold emit, main_end, after_events;
      cbn [fst snd nametable files readonly trace];
      rewrite <- ?app_assoc; reflexivity.
  - unfold mbind, M_bind, bind, emit, main_end, after_events.
    cbn [fst snd nametable files readonly trace].
    rewrite <- ?app_assoc. reflexivity.
Qed.

(** X14: when either dialog is cancelled [main] only logs it and destroys the
    root window: no file is read, not even the source list when no target
    file was chosen, and the state is otherwise as it was. *)
Theorem main_cancelled (lower : str → str) (started : nat → bool)
    (nametable_path : path) (xml_paths : list path) (σ : state) :
  (nametable_path = EmptyString →
     main lower started nametable_path xml_paths σ
     = (Ok tt, after_events σ [LogInfo NoNametableSelected; RootDestroy]))
  ∧ (nametable_path ≠ EmptyString → xml_paths = [] →
     main lower started nametable_path xml_paths σ
     = (Ok tt, after_events σ [LogInfo NoXmlSelected; RootDestroy])).
Proof.
  split.
  - intros ->. unfold main, try_finally, try_except, emit, after_events.
    rewrite bool_decide_true by reflexivity.
    cbn [fst snd nametable files readonly trace].
    rewrite <- ?app_assoc. reflexivity.
  - intros Hp ->. unfold main, try_finally, try_except, emit, after_events.
    rewrite bool_decide_false by exact Hp. rewrite bool_decide_true by reflexivity.
    cbn [fst snd nametable files readonly trace].
    rewrite <- ?app_assoc. reflexivity.
Qed.

(** X15: with both dialogs answered and a readable source list, [main] loads the
    table into a fresh processor, runs the batch, and ends with the success
    box when the batch returned normally and with the error box for the
    batch's exception otherwise. *)
Theorem main_after_load (lower : str → str) (started : nat → bool)
    (nametable_path : path) (xml_paths : list path) (σ : state) (raw : str) :
  nametable_path ≠ EmptyString → xml_paths ≠ [] →
  files σ !! nametable_path = Some (Text raw) →
  let tbl := nametable_of_lines lower (Io.lines (Io.universal_newlines raw)) in
  let σ1 := State tbl (files σ) (readonly σ)
              (trace σ ++ [Read nametable_path; LogInfo (Loaded (size tbl))]) in
  main lower started nametable_path xml_paths σ
  = (Ok tt, main_end (process_files started xml_paths σ1).1
              (process_files started xml_paths σ1).2).
Proof.
  intros Hp Hx Hf tbl σ1. rewrite (main_steps lower started _ _ σ Hp Hx).
  rewrite (load_nametable_text lower nametable_path
             (State ∅ (files σ) (readonly σ) (trace σ)) raw Hf).
  reflexivity.
Qed.

Lemma main_after_load_witness :
  main ascii_lower (fun _ => true) "names.txt" ["a.xml"; "gone.xml"]
    (State ∅ sample_files ∅ [])
  = (Ok tt,
     State (nametable_of_lines ascii_lower [lit "a"])
       (<["a.xml" := Text (lit "<x>a</x>")]> sample_files) ∅
       [Read "names.txt"; LogInfo (Loaded 1);
        Read "a.xml"; Written "a.xml" (lit "<x>a</x>"); LogInfo (Processed "a.xml");
        LogError (ErrorProcessing "gone.xml" (FileNotFoundError "gone.xml"));
        LogError (AnErrorOccurred (FileNotFoundError "gone.xml"));
        ShowError (FileNotFoundError "gone.xml"); RootDestroy]).
Proof.
  rewrite (main_after_load ascii_lower (fun _ => true) "names.txt"
             ["a.xml"; "gone.xml"] (State ∅ sample_files ∅ []) (lit "a")
             ltac:(discriminate) ltac:(discriminate) eq_refl).
  vm_compute. reflexivity.
Defined.


(** ** What a run touches *)

Lemma run_calls_ran started ps : ∀ i failed σ,
  ∃ ran, sublist ran ps ∧ (run_calls started i failed ps σ).2 = run_seq ran σ.
Proof.
  induction ps as [|p ps IH]; intros i failed σ.
  - exists []. split; [constructor|reflexivity].
  - cbn [run_calls]. destruct failed as [e|].
    + destruct (started i).
      * destruct (IH (S i) (Some e) (process_xml_file p σ).2) as (ran & Hsub & Hrun).
        exists (p :: ran). split; [apply sublist_skip, Hsub|].
        rewrite Hrun. reflexivity.
      * destruct (IH (S i) (Some e) σ) as (ran & Hsub & Hrun).
        exists ran. split; [apply sublist_cons, Hsub|exact Hrun].
    + destruct (process_xml_file p σ) as [[[]|e] σ1] eqn:Hp.
      * destruct (IH (S i) None σ1) as (ran & Hsub & Hrun).
        exists (p :: ran). split; [apply sublist_skip, Hsub|].
        rewrite Hrun, run_seq_cons, Hp. reflexivity.
      * destruct (IH (S i) (Some e) σ1) as (ran & Hsub & Hrun).
        exists (p :: ran). split; [apply sublist_skip, Hsub|].
        rewrite Hrun, run_seq_cons, Hp. reflexivity.
Qed.

Lemma process_files_ran started ps σ :
  ∃ ran, sublist ran ps ∧ (process_files started ps σ).2 = run_seq ran σ.
Proof.
  destruct (run_calls_ran started ps 0 None σ) as (ran & Hsub & Hrun).
  exists ran. split; [exact Hsub|]. unfold process_files.
  destruct (run_calls started 0 None ps σ) as [[e|] σ']; exact Hrun.
Qed.

(** X17: whatever the scheduling and the outcome, the batch never alters
    the table, the permissions, or a file whose path is not in the list. *)
Theorem process_files_confined (started : nat → bool) (xml_files : list path)
    (σ : state) :
  nametable (process_files started xml_files σ).2 = nametable σ
  ∧ readonly (process_files started xml_files σ).2 = readonly σ
  ∧ ∀ q, q ∉ xml_files →
         files (process_files started xml_files σ).2 !! q = files σ !! q.
Proof.
  destruct (process_files_ran started xml_files σ) as (ran & Hsub & Hrun).
  rewrite Hrun. destruct (run_seq_state ran σ) as (Hn & Hr & _).
  split; [exact Hn|]. split; [exact Hr|]. intros q Hq. apply run_seq_frame.
  intros Hin. apply Hq. eapply elem_of_sublist; eauto.
Qed.

Lemma process_xml_file_events p σ :
  ∃ evs, trace (process_xml_file p σ).2 = trace σ ++ evs
       ∧ Forall (λ ev, main_event ev = false) evs.
Proof.
  destruct (files σ !! p) as [[raw|]|] eqn:Hf.
  - destruct (decide (substitute (nametable σ) (Io.universal_newlines raw)
                      = Io.universal_newlines raw)) as [Hsame|Hdiff].
    + rewrite (process_xml_file_unchanged _ _ _ Hf Hsame). eexists.
      split; [reflexivity|]. repeat constructor.
    + destruct (decide (p ∈ readonly σ)) as [Hro|Hw].
      * rewrite (process_xml_file_readonly _ _ _ Hf Hdiff Hro). eexists.
        split; [reflexivity|]. repeat constructor.
      * rewrite (process_xml_file_written _ _ _ Hf Hdiff Hw). eexists.
        split; [reflexivity|]. repeat constructor.
  - rewrite (process_xml_file_undecodable _ _ Hf). eexists.
    split; [reflexivity|]. repeat constructor.
  - rewrite (process_xml_file_missing _ _ Hf). eexists.
    split; [reflexivity|]. repeat constructor.
Qed.

Lemma run_seq_events ps : ∀ σ,
  ∃ evs, trace (run_seq ps σ) = trace σ ++ evs
       ∧ Forall (λ ev, main_event ev = false) evs.
Proof.
  induction ps as [|p ps IH]; intros σ.
  - exists []. rewrite app_nil_r. split; [reflexivity|constructor].
  - rewrite run_seq_cons.
    destruct (process_xml_file_events p σ) as (evs1 & H1 & F1).
    destruct (IH (process_xml_file p σ).2) as (evs2 & H2 & F2).
    exists (evs1 ++ evs2). rewrite H2, H1, app_assoc.
    split; [reflexivity|apply Forall_app; auto].
Qed.

Lemma not_main_event_in evs ev :
  Forall (λ ev, main_event ev = false) evs → main_event ev = true → ev ∉ evs.
Proof.
  intros Hall Hev Hin. rewrite Forall_forall in Hall.
  apply Hall in Hin. congruence.
Qed.

(** X18: when [main] has shown the success box, the source list was readable
    and, the chosen paths being distinct, every chosen file was text and now
    holds the substitution, under the table of the source list, of the
    content read from it when that differs from the content read, and what
    it held otherwise; every other file is as before. *)
Theorem main_success (lower : str → str) (started : nat → bool)
    (nametable_path : path) (xml_paths : list path) (σ : state) :
  NoDup xml_paths →
  ShowInfoSuccess ∉ trace σ →
  ShowInfoSuccess ∈ trace (main lower started nametable_path xml_paths σ).2 →
  ∃ names,
    files σ !! nametable_path = Some (Text names)
    ∧ nametable (main lower started nametable_path xml_paths σ).2
      = nametable_of_lines lower (Io.lines (Io.universal_newlines names))
    ∧ (∀ p, p ∈ xml_paths →
         ∃ raw, files σ !! p = Some (Text raw)
           ∧ files (main lower started nametable_path xml_paths σ).2 !! p
             = Some (Text
                 (if changed (Io.universal_newlines raw)
                      (substitute
                         (nametable_of_lines lower (Io.lines (Io.universal_newlines names)))
                         (Io.universal_newlines raw))
                  then substitute
                         (nametable_of_lines lower (Io.lines (Io.universal_newlines names)))
                         (Io.universal_newlines raw)
                  else raw)))
    ∧ (∀ q, q ∉ xml_paths →
         files (main lower started nametable_path xml_paths σ).2 !! q = files σ !! q).
Proof.
  intros Hnd Hold Hshown.
  destruct (decide (nametable_path = EmptyString)) as [Hp|Hp].
  { rewrite (proj1 (main_cancelled lower started _ xml_paths σ) Hp) in Hshown.
    cbn [snd after_events trace] in Hshown.
    apply elem_of_app in Hshown as [H|H]; [contradiction|].
    repeat (apply elem_of_cons in H as [H|H]; [discriminate H|]). inversion H. }
  destruct (decide (xml_paths = [])) as [Hx|Hx].
  { rewrite (proj2 (main_cancelled lower started _ _ σ) Hp Hx) in Hshown.
    cbn [snd after_events trace] in Hshown.
    apply elem_of_app in Hshown as [H|H]; [contradiction|].
    repeat (apply elem_of_cons in H as [H|H]; [discriminate H|]). inversion H. }
  rewrite (main_steps lower started _ _ σ Hp Hx) in Hshown |- *.
  destruct (files σ !! nametable_path) as [[names|]|] eqn:Hf.
  - rewrite (load_nametable_text lower nametable_path
               (State ∅ (files σ) (readonly σ) (trace σ)) names Hf) in Hshown |- *.
    cbn [nametable files readonly trace snd] in Hshown |- *.
    set (tbl := nametable_of_lines lower (Io.lines (Io.universal_newlines names))) in *.
    set (σ1 := State tbl (files σ) (readonly σ)
                 (trace σ ++ [Read nametable_path; LogInfo (Loaded (size tbl))])) in *.
    exists names. split; [reflexivity|].
    destruct (process_files started xml_paths σ1).1 as [[]|e] eqn:Hres.
    + destruct (process_files_files started xml_paths σ1 Hnd Hres)
        as (Hin & Hout & Hnt).
      cbn [main_end after_events nametable files]. auto.
    + exfalso. cbn [main_end after_events trace] in Hshown.
      destruct (process_files_ran started xml_paths σ1) as (ran & _ & Hrun).
      destruct (run_seq_events ran σ1) as (evs & Hevs & Hall).
      rewrite Hrun, Hevs in Hshown. cbn [trace σ1] in Hshown.
      repeat (apply elem_of_app in Hshown as [Hshown|Hshown]);
        [contradiction| | |].
      * repeat (apply elem_of_cons in Hshown as [H|Hshown]; [discriminate H|]).
        inversion Hshown.
      * exact (not_main_event_in evs ShowInfoSuccess Hall eq_refl Hshown).
      * repeat (apply elem_of_cons in Hshown as [H|Hshown]; [discriminate H|]).
        inversion Hshown.
  - exfalso.
    rewrite (load_nametable_unreadable lower nametable_path
               (State ∅ (files σ) (readonly σ) (trace σ)) (or_intror Hf)) in Hshown.
    cbn [snd main_end after_events trace] in Hshown.
    repeat (apply elem_of_app in Hshown as [Hshown|Hshown]); [contradiction| |];
      repeat (apply elem_of_cons in Hshown as [H|Hshown]; [discriminate H|]);
      inversion Hshown.
  - exfalso.
    rewrite (load_nametable_unreadable lower nametable_path
               (State ∅ (files σ) (readonly σ) (trace σ)) (or_introl Hf)) in Hshown.
    cbn [snd main_end after_events trace] in Hshown.
    repeat (apply elem_of_app in Hshown as [Hshown|Hshown]); [contradiction| |];
      repeat (apply elem_of_cons in Hshown as [H|Hshown]; [discriminate H|]);
      inversion Hshown.
Qed.

Lemma main_success_witness :
  files (main ascii_lower (fun _ => true) "names.txt" ["a.xml"; "b.xml"; "c.xml"]
           (State ∅ sample_files ∅ [])).2 !! "names.txt"
  = Some (Text (lit "a")).
Proof.
  destruct (main_success ascii_lower (fun _ => true) "names.txt"
              ["a.xml"; "b.xml"; "c.xml"] (State ∅ sample_files ∅ []))
    as (names & _ & _ & _ & Hout).
  - apply (bool_decide_unpack _). vm_compute. exact I.
  - apply not_elem_of_nil.
  - rewrite main_all_ok. repeat constructor.
  - rewrite Hout; [reflexivity|].
    apply (bool_decide_unpack _). vm_compute. exact I.
Defined.

(** ** Round trips, further *)

(** X19: for every non-blank source line, substituting a content that is
    exactly its token gives the trimmed form of the last non-blank line of
    the list that has this token: the line itself, or a line after it that
    its token collides with. *)
Theorem round_trip_same_token (lower : str → str) (lines : list str)
    (k : nat) (line : str) :
  lines !! k = Some line → Py.strip line ≠ [] →
  ∃ i line',
    k ≤ i ∧ lines !! i = Some line' ∧ Py.strip line' ≠ []
    ∧ joaat_hash lower (Py.strip line') = joaat_hash lower (Py.strip line)
    ∧ (∀ j line'', i < j → lines !! j = Some line'' → Py.strip line'' ≠ [] →
         joaat_hash lower (Py.strip line'') ≠ joaat_hash lower (Py.strip line))
    ∧ substitute (nametable_of_lines lower lines) (joaat_hash lower (Py.strip line))
      = Py.strip line'.
Proof.
  intros Hk Hnb.
  assert (line ∈ lines) as Hin by (eapply list_elem_of_lookup_2; exact Hk).
  destruct (nametable_of_lines_key lower lines line Hin Hnb) as [name Hname].
  pose proof Hname as Hl.
  apply nametable_of_lines_lookup in Hl as (i & line' & Hi & Hnb' & -> & Hkey & Hlast).
  exists i, line'.
  split.
  { destruct (decide (k ≤ i)) as [|Hlt]; [assumption|exfalso].
    apply (Hlast k line); [lia|exact Hk|exact Hnb|reflexivity]. }
  split; [exact Hi|]. split; [exact Hnb'|]. split; [symmetry; exact Hkey|].
  split; [exact Hlast|].
  rewrite substitute_token by apply joaat_hash_token.
  apply repl_known, Hname.
Qed.

Lemma round_trip_same_token_witness :
  ∃ i line',
    0 ≤ i ∧ [lit "Player_Ped"; lit "x"; lit " PLAYER_PED "] !! i = Some line'
    ∧ Py.strip line' ≠ []
    ∧ joaat_hash ascii_lower (Py.strip line')
      = joaat_hash ascii_lower (Py.strip (lit "Player_Ped"))
    ∧ (∀ j line'', i < j →
         [lit "Player_Ped"; lit "x"; lit " PLAYER_PED "] !! j = Some line'' →
         Py.strip line'' ≠ [] →
         joaat_hash ascii_lower (Py.strip line'')
         ≠ joaat_hash ascii_lower (Py.strip (lit "Player_Ped")))
    ∧ substitute
        (nametable_of_lines ascii_lower [lit "Player_Ped"; lit "x"; lit " PLAYER_PED "])
        (joaat_hash ascii_lower (Py.strip (lit "Player_Ped")))
      = Py.strip line'.
Proof.
  apply (round_trip_same_token ascii_lower
           [lit "Player_Ped"; lit "x"; lit " PLAYER_PED "] 0 (lit "Player_Ped")).
  - reflexivity.
  - vm_compute. discriminate.
Defined.

(** ** A second pass *)

Lemma universal_newlines_no_cr n : ∀ s,
  length s ≤ n → Forall (λ c, c ≠ 13%Z) (Io.universal_newlines s).
Proof.
  induction n as [|n IH]; intros s Hn.
  - destruct s; [constructor|cbn in Hn; lia].
  - destruct s as [|c s]; [constructor|]. cbn [Io.universal_newlines length] in *.
    destruct (Z.eqb_spec c 13) as [->|Hc].
    + constructor; [discriminate|].
      destruct s as [|c' s]; [constructor|]. cbn [length] in Hn.
      destruct (c' =? 10)%Z; apply IH; cbn [length]; lia.
    + constructor; [exact Hc|]. apply IH. lia.
Qed.

Lemma universal_newlines_id s :
  Forall (λ c, c ≠ 13%Z) s → Io.universal_newlines s = s.
Proof.
  induction 1 as [|c s Hc _ IH]; [reflexivity|].
  cbn [Io.universal_newlines].
  destruct (Z.eqb_spec c 13) as [?|_]; [contradiction|]. rewrite IH. reflexivity.
Qed.

Lemma universal_newlines_idem s :
  Io.universal_newlines (Io.universal_newlines s) = Io.universal_newlines s.
Proof. apply universal_newlines_id, (universal_newlines_no_cr (length s)). lia. Qed.

(** X20: when a call has returned normally and the pattern has no match in the
    new content as it is read back, a second call for the same file changes
    nothing: it logs that no change is needed and the files stay as the
    first call left them. *)
Theorem process_xml_file_second_pass (xml_file : path) (σ : state) (raw : str) :
  files σ !! xml_file = Some (Text raw) →
  (process_xml_file xml_file σ).1 = Ok tt →
  Re.hash_pattern_search
    (Io.universal_newlines
       (substitute (nametable σ) (Io.universal_newlines raw))) = None →
  process_xml_file xml_file (process_xml_file xml_file σ).2
  = (Ok tt, after_events (process_xml_file xml_file σ).2
              [Read xml_file; LogInfo (NoChangesNeeded xml_file)]).
Proof.
  intros Hf Hok Hno.
  destruct (decide (substitute (nametable σ) (Io.universal_newlines raw)
                    = Io.universal_newlines raw)) as [Hsame|Hdiff].
  - rewrite Hsame, universal_newlines_idem in Hno.
    rewrite (process_xml_file_unchanged _ _ _ Hf Hsame).
    cbn [snd]. apply process_xml_file_unchanged with (raw := raw); [exact Hf|].
    cbn [nametable]. exact Hsame.
  - destruct (decide (xml_file ∈ readonly σ)) as [Hro|Hw].
    + rewrite (process_xml_file_readonly _ _ _ Hf Hdiff Hro) in Hok. discriminate Hok.
    + rewrite (process_xml_file_written _ _ _ Hf Hdiff Hw). cbn [snd].
      apply process_xml_file_unchanged
        with (raw := substitute (nametable σ) (Io.universal_newlines raw)).
      * cbn [files]. apply lookup_insert_eq.
      * cbn [nametable]. apply substitute_no_token, Hno.
Qed.

Lemma process_xml_file_second_pass_witness :
  process_xml_file "a.xml" (process_xml_file "a.xml" sample_loaded).2
  = (Ok tt, after_events (process_xml_file "a.xml" sample_loaded).2
              [Read "a.xml"; LogInfo (NoChangesNeeded "a.xml")]).
Proof.
  apply (process_xml_file_second_pass "a.xml" sample_loaded
           (lit "<x>hash_CA2E9442</x>") eq_refl);
    vm_compute; reflexivity.
Defined.
